(** * ADVRECONHOUND scan pipeline: a shallow embedding and its properties

    The development follows the server side of the repository:
    - [server/services/reconnaissance.ts]: target validation, the probe
      fan-out, the technology detector and the whois parser;
    - [server/services/mitre-attack.ts]: the keyword fallback mapping;
    - [server/services/openai.ts]: the vulnerability-inference call;
    - [server/storage.ts] and [server/routes.ts]: the storage interface,
      the WebSocket registry, the scan submission route and [performScan].

    Modelling conventions.
    - JavaScript strings are Rocq [string]s, sequences of 8-bit
      characters; [toLowerCase], [trim] and the character classes of the
      regular expressions act on the ASCII range, where they coincide with
      the JavaScript functions.
    - JavaScript numbers are binary64 floats; counters, ports, progress
      values and identifiers are natural numbers.
    - Awaited calls are sequenced in program order.  The outcome of every
      call to the outside world (DNS, sockets, the whois binary, the
      inference provider) is an explicit input of the model.
    - The storage collaborator and [WebSocket.send] on an open socket
      always succeed.
    - Values parsed from the provider have the fields of their TypeScript
      interfaces, except where the code itself provides for an absent one. *)

From Stdlib Require Import ZArith NArith Lia Bool List Ascii String Floats Uint63 Sorted.
From Stdlib Require Import DecimalString Permutation.
From stdpp Require Import base option list strings gmap.

Open Scope string_scope.
Open Scope list_scope.

(* ===================================================================== *)
(** ** JavaScript string primitives *)
(* ===================================================================== *)

Module JsString.

Definition is_upper (c : ascii) : bool :=
  let n := N_of_ascii c in (65 <=? n)%N && (n <=? 90)%N.

(** [String.prototype.toLowerCase] on one ASCII character. *)
Definition lower_ascii (c : ascii) : ascii :=
  if is_upper c then ascii_of_N (N_of_ascii c + 32) else c.

Fixpoint toLowerCase (s : string) : string :=
  match s with
  | EmptyString => EmptyString
  | String c r => String (lower_ascii c) (toLowerCase r)
  end.

(** [s.includes(pat)]: [pat] occurs in [s] as a contiguous substring. *)
Fixpoint includes (pat s : string) : bool :=
  String.prefix pat s ||
  match s with
  | EmptyString => false
  | String _ r => includes pat r
  end.

(** White space as seen by [trim] and by the class [\s]. *)
Definition is_space (c : ascii) : bool :=
  let n := N_of_ascii c in
  (n =? 32)%N || ((9 <=? n)%N && (n <=? 13)%N).

Definition is_empty (s : string) : bool :=
  match s with EmptyString => true | String _ _ => false end.

Fixpoint trimStart (s : string) : string :=
  match s with
  | EmptyString => EmptyString
  | String c r => if is_space c then trimStart r else s
  end.

Fixpoint trimEnd (s : string) : string :=
  match s with
  | EmptyString => EmptyString
  | String c r =>
      let r' := trimEnd r in
      if is_space c && is_empty r' then EmptyString else String c r'
  end.

Definition trim (s : string) : string := trimEnd (trimStart s).

(** [s.split(sep)] for a one-character separator: never empty,
    [''.split(sep)] is [['']]. *)
Fixpoint split (sep : ascii) (s : string) : list string :=
  match s with
  | EmptyString => [EmptyString]
  | String c r =>
      if Ascii.eqb c sep then EmptyString :: split sep r
      else match split sep r with
           | [] => [String c EmptyString]
           | h :: t => String c h :: t
           end
  end.

(** [parts.join(sep)]. *)
Fixpoint join (sep : string) (parts : list string) : string :=
  match parts with
  | [] => EmptyString
  | [p] => p
  | p :: rest => String.append p (String.append sep (join sep rest))
  end.

(** Truthiness of a string value: the empty string is falsy. *)
Definition truthy (s : string) : bool := negb (is_empty s).

End JsString.

(* ===================================================================== *)
(** ** Regular expressions, as far as the two validation patterns need *)
(* ===================================================================== *)

Module Regex.

Inductive regex : Type :=
| Void                                   (* matches nothing *)
| Eps                                    (* the empty word *)
| Class (p : ascii -> bool)              (* one character of a class *)
| Cat (r1 r2 : regex)                    (* r1 r2 *)
| Alt (r1 r2 : regex)                    (* r1 | r2 *)
| Star (r : regex)                       (* r* *)
| Upto (n : nat) (r : regex).            (* r{0,n} *)

Definition Opt (r : regex) : regex := Alt r Eps.          (* r? *)

Fixpoint Times (n : nat) (r : regex) : regex :=            (* r{n} *)
  match n with
  | O => Eps
  | S k => Cat r (Times k r)
  end.

(** Declarative meaning: the words of the language of a pattern. *)
Inductive Matches : regex -> list ascii -> Prop :=
| MEps : Matches Eps []
| MClass p c : p c = true -> Matches (Class p) [c]
| MCat r1 r2 u v : Matches r1 u -> Matches r2 v -> Matches (Cat r1 r2) (u ++ v)
| MAltL r1 r2 u : Matches r1 u -> Matches (Alt r1 r2) u
| MAltR r1 r2 u : Matches r2 u -> Matches (Alt r1 r2) u
| MStar0 r : Matches (Star r) []
| MStarS r u v : Matches r u -> Matches (Star r) v -> Matches (Star r) (u ++ v)
| MUpto0 n r : Matches (Upto n r) []
| MUptoS n r u v :
    Matches r u -> Matches (Upto n r) v -> Matches (Upto (S n) r) (u ++ v).

Fixpoint nullable (r : regex) : bool :=
  match r with
  | Void => false
  | Eps => true
  | Class _ => false
  | Cat r1 r2 => nullable r1 && nullable r2
  | Alt r1 r2 => nullable r1 || nullable r2
  | Star _ => true
  | Upto _ _ => true
  end.

(** Brzozowski derivative of a pattern by one character. *)
Fixpoint deriv (c : ascii) (r : regex) : regex :=
  match r with
  | Void => Void
  | Eps => Void
  | Class p => if p c then Eps else Void
  | Cat r1 r2 =>
      if nullable r1
      then Alt (Cat (deriv c r1) r2) (deriv c r2)
      else Cat (deriv c r1) r2
  | Alt r1 r2 => Alt (deriv c r1) (deriv c r2)
  | Star r1 => Cat (deriv c r1) (Star r1)
  | Upto n r1 =>
      match n with
      | O => Void
      | S k => Cat (deriv c r1) (Upto k r1)
      end
  end.

(** Light simplification, so that derivatives stay small. *)
Definition is_void (r : regex) : bool :=
  match r with Void => true | _ => false end.

Fixpoint simp (r : regex) : regex :=
  match r with
  | Cat r1 r2 =>
      let s1 := simp r1 in
      let s2 := simp r2 in
      if is_void s1 || is_void s2 then Void else Cat s1 s2
  | Alt r1 r2 =>
      let s1 := simp r1 in
      let s2 := simp r2 in
      if is_void s1 then s2 else if is_void s2 then s1 else Alt s1 s2
  | _ => r
  end.

Fixpoint matches (r : regex) (w : list ascii) : bool :=
  match w with
  | [] => nullable r
  | c :: w' => matches (simp (deriv c r)) w'
  end.

(** [/^r$/.test(s)]: the whole string is a word of [r]. *)
Definition test (r : regex) (s : string) : bool :=
  matches r (list_ascii_of_string s).

End Regex.

(* ===================================================================== *)
(** ** Promise outcomes and thrown errors *)
(* ===================================================================== *)

(** One slot of [Promise.allSettled]: the promise fulfilled with a value
  or rejected with an error (of which the message is kept). *)
Inductive Settled (A : Type) : Type :=
| Fulfilled (value : A)
| Rejected (reason : string).
Arguments Fulfilled {A} value.
Arguments Rejected {A} reason.

(** The result of a call that may throw [new Error(message)]. *)
Inductive Result (A : Type) : Type :=
| Ok (value : A)
| Throw (message : string).
Arguments Ok {A} value.
Arguments Throw {A} message.

(* ===================================================================== *)
(** ** server/services/reconnaissance.ts *)
(* ===================================================================== *)

Module Recon.
Import JsString Regex.

Definition in_range (lo hi : N) (c : ascii) : bool :=
  let n := N_of_ascii c in (lo <=? n)%N && (n <=? hi)%N.

Definition digit (c : ascii) : bool := in_range 48 57 c.          (* [0-9] *)
Definition alnum (c : ascii) : bool :=                            (* [a-zA-Z0-9] *)
  in_range 97 122 c || in_range 65 90 c || digit c.
Definition alnum_dash (c : ascii) : bool :=                       (* [a-zA-Z0-9-] *)
  alnum c || Ascii.eqb c "-".
Definition lit (a : ascii) : regex := Class (Ascii.eqb a).

(** [[a-zA-Z0-9]([a-zA-Z0-9-]{0,61}[a-zA-Z0-9])?] *)
Definition label : regex :=
  Cat (Class alnum) (Opt (Cat (Upto 61 (Class alnum_dash)) (Class alnum))).

(** [/^label(\.label)*$/] *)
Definition domainRegex : regex :=
  Cat label (Star (Cat (lit ".") label)).

(** [(?:25[0-5]|2[0-4][0-9]|[01]?[0-9][0-9]?)] *)
Definition octet : regex :=
  Alt (Cat (lit "2") (Cat (lit "5") (Class (in_range 48 53))))
    (Alt (Cat (lit "2") (Cat (Class (in_range 48 52)) (Class digit)))
         (Cat (Opt (Class (in_range 48 49)))
              (Cat (Class digit) (Opt (Class digit))))).

(** [/^(?:octet\.){3}octet$/] *)
Definition ipRegex : regex :=
  Cat (Times 3 (Cat octet (lit "."))) octet.

Definition validateTarget (target : string) : bool :=
  test domainRegex target || test ipRegex target.

Record Technology : Type := mkTechnology {
  name : string;
  version : option string;       (* [None]: the property is undefined *)
  category : string
}.

Record DnsRecord : Type := mkDnsRecord { type : string; value : string }.

(** Peer certificate metadata, opaque to the pipeline. *)
Definition Certificate : Type := string.

(** The whois object: [None] is JavaScript's [null]. *)
Definition WhoisData : Type := option (gmap string string).

Record ReconResults : Type := mkReconResults {
  target : string;
  subdomains : list string;
  openPorts : list nat;
  technologies : list Technology;
  dnsRecords : list DnsRecord;
  whoisData : option WhoisData;          (* [None]: never assigned *)
  headers : gmap string string;
  statusCode : option nat;
  certificates : option Certificate
}.

Record WebInfo : Type := mkWebInfo {
  wi_headers : gmap string string;
  wi_statusCode : nat;
  wi_technologies : list Technology;
  wi_certificates : option Certificate
}.

(** The five slots returned by [Promise.allSettled], in source order. *)
Record ProbeOutcomes : Type := mkProbeOutcomes {
  po_subdomains : Settled (list string);
  po_openPorts : Settled (list nat);
  po_dnsRecords : Settled (list DnsRecord);
  po_webInfo : Settled WebInfo;
  po_whoisData : Settled WhoisData
}.

Definition initialResults (target : string) : ReconResults :=
  {| target := target; subdomains := []; openPorts := []; technologies := [];
     dnsRecords := []; whoisData := None; headers := ∅;
     statusCode := None; certificates := None |}.

Definition set_subdomains (v : list string) (r : ReconResults) : ReconResults :=
  {| target := target r; subdomains := v; openPorts := openPorts r;
     technologies := technologies r; dnsRecords := dnsRecords r;
     whoisData := whoisData r; headers := headers r;
     statusCode := statusCode r; certificates := certificates r |}.

Definition set_openPorts (v : list nat) (r : ReconResults) : ReconResults :=
  {| target := target r; subdomains := subdomains r; openPorts := v;
     technologies := technologies r; dnsRecords := dnsRecords r;
     whoisData := whoisData r; headers := headers r;
     statusCode := statusCode r; certificates := certificates r |}.

Definition set_dnsRecords (v : list DnsRecord) (r : ReconResults) : ReconResults :=
  {| target := target r; subdomains := subdomains r; openPorts := openPorts r;
     technologies := technologies r; dnsRecords := v;
     whoisData := whoisData r; headers := headers r;
     statusCode := statusCode r; certificates := certificates r |}.

Definition set_webInfo (v : WebInfo) (r : ReconResults) : ReconResults :=
  {| target := target r; subdomains := subdomains r; openPorts := openPorts r;
     technologies := wi_technologies v; dnsRecords := dnsRecords r;
     whoisData := whoisData r; headers := wi_headers v;
     statusCode := Some (wi_statusCode v);
     certificates := wi_certificates v |}.

Definition set_whoisData (v : WhoisData) (r : ReconResults) : ReconResults :=
  {| target := target r; subdomains := subdomains r; openPorts := openPorts r;
     technologies := technologies r; dnsRecords := dnsRecords r;
     whoisData := Some v; headers := headers r;
     statusCode := statusCode r; certificates := certificates r |}.

(** [if (slot.status === 'fulfilled') results.field = slot.value]. *)
Definition when_fulfilled {A} (slot : Settled A)
    (assign : A -> ReconResults -> ReconResults) (r : ReconResults) : ReconResults :=
  match slot with
  | Fulfilled v => assign v r
  | Rejected _ => r
  end.

(** [performReconnaissance], given the settled outcome of each probe.
    [Promise.allSettled] never rejects and the assignments do not throw,
    so the [catch] block around them is never entered. *)
Definition performReconnaissance (tgt : string) (settled : ProbeOutcomes)
    : Result ReconResults :=
  if negb (validateTarget tgt) then Throw "Invalid target format"
  else
    let results := initialResults tgt in
    let results := when_fulfilled (po_subdomains settled) set_subdomains results in
    let results := when_fulfilled (po_openPorts settled) set_openPorts results in
    let results := when_fulfilled (po_dnsRecords settled) set_dnsRecords results in
    let results := when_fulfilled (po_webInfo settled) set_webInfo results in
    let results := when_fulfilled (po_whoisData settled) set_whoisData results in
    Ok results.

(** *** Technology detection *)

Fixpoint strip_prefix (pre s : string) : option string :=
  match pre, s with
  | EmptyString, _ => Some s
  | String a p, String b r => if Ascii.eqb a b then strip_prefix p r else None
  | String _ _, EmptyString => None
  end.

Fixpoint takeNonSpace (s : string) : string :=
  match s with
  | EmptyString => EmptyString
  | String c r => if is_space c then EmptyString else String c (takeNonSpace r)
  end.

(** The pattern [pre([^\s]+)] anchored at the start of [s]. *)
Definition capture_at (pre s : string) : option string :=
  match strip_prefix pre s with
  | Some rest =>
      let cap := takeNonSpace rest in
      if is_empty cap then None else Some cap
  | None => None
  end.

(** [s.match(/pre([^\s]+)/)?.[1]]: first group of the leftmost match. *)
Fixpoint match_version (pre s : string) : option string :=
  match capture_at pre s with
  | Some v => Some v
  | None =>
      match s with
      | EmptyString => None
      | String _ r => match_version pre r
      end
  end.

(** A header that is present and not the empty string. *)
Definition header (h : gmap string string) (key : string) : option string :=
  match h !! key with
  | Some v => if truthy v then Some v else None
  | None => None
  end.

Definition detectServer (h : gmap string string) : list Technology :=
  match header h "server" with
  | Some raw =>
      let server := toLowerCase raw in
      if includes "apache" server then
        [mkTechnology "Apache" (match_version "apache/" server) "web_server"]
      else if includes "nginx" server then
        [mkTechnology "Nginx" (match_version "nginx/" server) "web_server"]
      else if includes "iis" server then
        [mkTechnology "IIS" (match_version "iis/" server) "web_server"]
      else []
  | None => []
  end.

Definition detectFramework (h : gmap string string) : list Technology :=
  match header h "x-powered-by" with
  | Some raw =>
      let poweredBy := toLowerCase raw in
      if includes "php" poweredBy then
        [mkTechnology "PHP" (match_version "php/" poweredBy) "framework"]
      else if includes "asp.net" poweredBy then
        [mkTechnology "ASP.NET" None "framework"]
      else []
  | None => []
  end.

Definition detectCms (h : gmap string string) : list Technology :=
  match header h "x-generator" with
  | Some raw =>
      let generator := toLowerCase raw in
      if includes "wordpress" generator then
        [mkTechnology "WordPress" None "cms"]
      else if includes "drupal" generator then
        [mkTechnology "Drupal" None "cms"]
      else []
  | None => []
  end.

(** [detectTechnologies]: the three blocks push onto one array in turn. *)
Definition detectTechnologies (h : gmap string string) : list Technology :=
  let technologies := [] in
  let technologies := technologies ++ detectServer h in
  let technologies := technologies ++ detectFramework h in
  let technologies := technologies ++ detectCms h in
  technologies.

(** What one HTTP(S) request produced, when it produced a response. *)
Record HttpResponse : Type := mkHttpResponse {
  res_headers : gmap string string;
  res_statusCode : option nat;
  res_peerCertificate : option Certificate
}.

(** [res.statusCode || 0] *)
Definition statusOrZero (s : option nat) : nat :=
  match s with Some n => n | None => 0 end.

(** [getWebInfo]: HTTPS first, plain HTTP once when HTTPS errors. *)
Definition getWebInfo (https http : Settled HttpResponse) : Settled WebInfo :=
  match https with
  | Fulfilled res =>
      Fulfilled (mkWebInfo (res_headers res) (statusOrZero (res_statusCode res))
                   (detectTechnologies (res_headers res)) (res_peerCertificate res))
  | Rejected _ =>
      match http with
      | Fulfilled res =>
          Fulfilled (mkWebInfo (res_headers res) (statusOrZero (res_statusCode res))
                       (detectTechnologies (res_headers res)) None)
      | Rejected e => Rejected e
      end
  end.

(** *** Registry lookup *)

(** [data[key] = value] on a plain object and a string [value]: the
    inherited [__proto__] setter ignores values that are not objects. *)
Definition js_set (key value : string) (data : gmap string string)
    : gmap string string :=
  if String.eqb key "__proto__" then data else <[key := value]> data.

Definition colon : ascii := ":"%char.
Definition newline : ascii := ascii_of_N 10.

(** The body of the [forEach] over the lines. *)
Definition whoisLine (data : gmap string string) (line : string)
    : gmap string string :=
  match split colon line with
  | [] => data
  | key :: valueParts =>
      if truthy key && (0 <? length valueParts)%nat then
        let value := trim (join ":" valueParts) in
        if truthy value then js_set (toLowerCase (trim key)) value data
        else data
      else data
  end.

Definition parseWhoisData (whoisOutput : string) : gmap string string :=
  let lines := split newline whoisOutput in
  fold_left whoisLine lines ∅.

(** [getWhoisData], given how the [whois] process ended: its standard
    output, or the rejection of [execAsync]. *)
Definition getWhoisData (exec : Settled string) : Settled WhoisData :=
  match exec with
  | Fulfilled stdout => Fulfilled (Some (parseWhoisData stdout))
  | Rejected _ => Fulfilled None
  end.

End Recon.

(* ===================================================================== *)
(** ** JavaScript numbers *)
(* ===================================================================== *)

(** Numbers are IEEE 754 doubles, here the kernel's binary64 floats. *)
Module JsNumber.
Import PrimFloat SpecFloat FloatOps.

Definition float_of_Z (n : Z) : float :=
  if (n <? 0)%Z then opp (of_uint63 (Uint63.of_Z (- n)))
  else of_uint63 (Uint63.of_Z n).

(** [Math.round]: the nearest integer, a tie going up; integers, zeros,
    infinities and NaN are returned as they are. *)
Definition Math_round (x : float) : float :=
  match Prim2SF x with
  | S754_finite s m e =>
      if (0 <=? e)%Z then x
      else
        let num := if s then Z.neg m else Z.pos m in
        let n := Z.shiftr (2 * num + 2 ^ (- e)) (- e + 1) in
        if (n =? 0)%Z then (if s then opp zero else zero) else float_of_Z n
  | _ => x
  end.

End JsNumber.

(* ===================================================================== *)
(** ** shared/schema.ts: the rows of the tables *)
(* ===================================================================== *)

Module Schema.
Import PrimFloat.

(** Timestamps are readings of the server clock. *)
Definition Timestamp : Type := nat.

Record Scan : Type := mkScan {
  s_id : nat;
  s_target : string;
  s_scanType : string;
  s_status : string;                 (* 'pending', 'running', 'completed', 'failed' *)
  s_progress : option nat;
  s_riskScore : option float;
  s_results : option Recon.ReconResults;
  s_createdAt : option Timestamp;
  s_completedAt : option Timestamp
}.

Record Vulnerability : Type := mkVulnerability {
  v_id : nat;
  v_scanId : nat;
  v_severity : string;               (* 'critical', 'high', 'medium', 'low' *)
  v_type : string;
  v_description : string;
  v_cvss : option string;
  v_remediation : option string
}.

Record Subdomain : Type := mkSubdomain {
  sd_id : nat;
  sd_scanId : nat;
  sd_subdomain : string;
  sd_ipAddress : option string;
  sd_status : string;                (* 'active', 'inactive' *)
  sd_technologies : option (list Recon.Technology)
}.

Record Technology : Type := mkTechnology {
  t_id : nat;
  t_scanId : nat;
  t_name : string;
  t_version : option string;
  t_category : string;
  t_confidence : option nat
}.

Record VulnerabilityMitreMapping : Type := mkVulnerabilityMitreMapping {
  m_id : nat;
  m_vulnerabilityId : nat;
  m_techniqueId : string;
  m_confidence : float;
  m_reasoning : option string
}.

(** [Partial<Scan>] as [updateScan] receives it: a field that is present
    replaces the stored one. *)
Record ScanUpdates : Type := mkScanUpdates {
  u_status : option string;
  u_progress : option (option nat);
  u_riskScore : option (option float);
  u_results : option (option Recon.ReconResults);
  u_completedAt : option (option Timestamp)
}.

End Schema.

(* ===================================================================== *)
(** ** server/services/mitre-attack.ts *)
(* ===================================================================== *)

Module Mitre.
Import PrimFloat JsString Schema.

Record MitreAttackMapping : Type := mkMitreAttackMapping {
  techniqueId : string;
  confidence : float;
  reasoning : string
}.

Record RiskAssessment : Type := mkRiskAssessment {
  likelihood : float;
  impact : float;
  overall : float
}.

Record MitreAnalysisResult : Type := mkMitreAnalysisResult {
  vulnerabilityId : nat;
  mappings : list MitreAttackMapping;
  attackPath : list string;
  riskAssessment : RiskAssessment
}.

(** The entries of [MITRE_ATTACK_TECHNIQUES] that the pipeline reads:
    technique id, name and tactic, in table order. *)
Definition MITRE_ATTACK_TECHNIQUES : list (string * string * string) :=
  [ ("T1190", "Exploit Public-Facing Application", "initial-access");
    ("T1189", "Drive-by Compromise", "initial-access");
    ("T1055", "Process Injection", "defense-evasion");
    ("T1021", "Remote Services", "lateral-movement");
    ("T1083", "File and Directory Discovery", "discovery");
    ("T1046", "Network Service Scanning", "discovery");
    ("T1071", "Application Layer Protocol", "command-and-control");
    ("T1059", "Command and Scripting Interpreter", "execution");
    ("T1543", "Create or Modify System Process", "persistence");
    ("T1068", "Exploitation for Privilege Escalation", "privilege-escalation") ].

Definition getSeverityScore (severity : string) : float :=
  let s := toLowerCase severity in
  if String.eqb s "critical" then 95%float
  else if String.eqb s "high" then 80%float
  else if String.eqb s "medium" then 60%float
  else if String.eqb s "low" then 30%float
  else 50%float.

#[local] Set Warnings "-inexact-float".

Definition getFallbackMapping (vulnerability : Vulnerability) : MitreAnalysisResult :=
  let mappings := [] in
  let attackPath := [] in
  let vulnType := toLowerCase (v_type vulnerability) in
  let '(mappings, attackPath) :=
    if includes "sql injection" vulnType || includes "xss" vulnType
       || includes "rce" vulnType
    then (mappings ++ [mkMitreAttackMapping "T1190" 85%float
            "Web application vulnerability allowing exploitation of public-facing application"],
          attackPath ++ ["T1190"])
    else (mappings, attackPath) in
  let '(mappings, attackPath) :=
    if includes "privilege escalation" vulnType
    then (mappings ++ [mkMitreAttackMapping "T1068" 80%float
            "Vulnerability allows privilege escalation"],
          attackPath ++ ["T1068"])
    else (mappings, attackPath) in
  let '(mappings, attackPath) :=
    if includes "service" vulnType || includes "port" vulnType
    then (mappings ++ [mkMitreAttackMapping "T1021" 70%float
            "Remote service vulnerability"],
          attackPath ++ ["T1021"])
    else (mappings, attackPath) in
  let severityScore := getSeverityScore (v_severity vulnerability) in
  {| vulnerabilityId := v_id vulnerability;
     mappings := mappings;
     attackPath := attackPath;
     riskAssessment :=
       {| likelihood := (severityScore * 0.8)%float;
          impact := severityScore;
          overall := (severityScore * 0.9)%float |} |}.

(** What the provider call inside the [try] block came to. *)
Inductive ProviderReply : Type :=
| CallFailed (message : string)        (* [generateContent] rejected: error or timeout *)
| Unparseable                          (* [JSON.parse(response.text)] threw *)
| Parsed (mappings : list MitreAttackMapping) (attackPath : list string)
         (riskAssessment : RiskAssessment).

(** The [catch] branch is taken: the call or the parsing threw. *)
Definition providerFailed (reply : ProviderReply) : bool :=
  match reply with
  | Parsed _ _ _ => false
  | CallFailed _ | Unparseable => true
  end.

Definition analyzeVulnerabilityForMitre (reply : ProviderReply)
    (vulnerability : Vulnerability) : MitreAnalysisResult :=
  match reply with
  | Parsed ms path risk =>
      {| vulnerabilityId := v_id vulnerability; mappings := ms;
         attackPath := path; riskAssessment := risk |}
  | CallFailed _ | Unparseable => getFallbackMapping vulnerability
  end.

End Mitre.

(* ===================================================================== *)
(** ** server/services/openai.ts *)
(* ===================================================================== *)

Module OpenAI.
Import PrimFloat.

Record Finding : Type := mkFinding {
  severity : string;
  type : string;
  description : string;
  cvss : string;
  remediation : string
}.

(** The parsed reply.  [response.text || "{}"] makes an empty reply parse
    to an object without fields, so the list may be missing. *)
Record VulnerabilityAnalysis : Type := mkVulnerabilityAnalysis {
  riskScore : float;
  riskLevel : string;
  summary : string;
  recommendations : list string;
  vulnerabilities : option (list Finding)
}.

Inductive ProviderReply : Type :=
| CallFailed (message : string)        (* [generateContent] rejected: error or timeout *)
| Unparseable                          (* [JSON.parse] threw *)
| Parsed (analysis : VulnerabilityAnalysis).

(** The [catch] branch is taken: the call or the parsing threw. *)
Definition providerFailed (reply : ProviderReply) : bool :=
  match reply with
  | Parsed _ => false
  | CallFailed _ | Unparseable => true
  end.

Definition analyzeVulnerabilities (reply : ProviderReply)
    : Result VulnerabilityAnalysis :=
  match reply with
  | Parsed analysis => Ok analysis
  | CallFailed _ | Unparseable => Throw "Failed to analyze vulnerabilities with AI"
  end.

End OpenAI.

(* ===================================================================== *)
(** ** server/storage.ts: the storage collaborator *)
(* ===================================================================== *)

(** The store behind [IStorage], as [DatabaseStorage] uses it: one table
    per entity, rows in insertion order, identifiers drawn from a serial
    counter per table.  Every operation succeeds. *)
Module Storage.
Import PrimFloat JsString Schema.

Record Storage : Type := mkStorage {
  scans : list Scan;
  vulnerabilities : list Vulnerability;
  subdomains : list Subdomain;
  technologies : list Technology;
  mitreMappings : list VulnerabilityMitreMapping;
  currentScanId : nat;
  currentVulnerabilityId : nat;
  currentSubdomainId : nat;
  currentTechnologyId : nat;
  currentMappingId : nat
}.

Definition empty : Storage :=
  mkStorage [] [] [] [] [] 1 1 1 1 1.

Definition createScan (target scanType : string) (now : Timestamp)
    (st : Storage) : Scan * Storage :=
  let id := currentScanId st in
  let scan := mkScan id target scanType "pending" (Some 0) None None (Some now) None in
  (scan,
   mkStorage (scans st ++ [scan]) (vulnerabilities st) (subdomains st)
     (technologies st) (mitreMappings st)
     (S id) (currentVulnerabilityId st) (currentSubdomainId st)
     (currentTechnologyId st) (currentMappingId st)).

Definition getScan (id : nat) (st : Storage) : option Scan :=
  find (fun scan => Nat.eqb (s_id scan) id) (scans st).

Definition override {A} (update : option A) (stored : A) : A :=
  match update with Some v => v | None => stored end.

(** [{ ...scan, ...updates }] *)
Definition applyUpdates (updates : ScanUpdates) (scan : Scan) : Scan :=
  mkScan (s_id scan) (s_target scan) (s_scanType scan)
    (override (u_status updates) (s_status scan))
    (override (u_progress updates) (s_progress scan))
    (override (u_riskScore updates) (s_riskScore scan))
    (override (u_results updates) (s_results scan))
    (s_createdAt scan)
    (override (u_completedAt updates) (s_completedAt scan)).

Definition updateScan (id : nat) (updates : ScanUpdates) (st : Storage) : Storage :=
  mkStorage
    (map (fun scan => if Nat.eqb (s_id scan) id then applyUpdates updates scan else scan)
         (scans st))
    (vulnerabilities st) (subdomains st) (technologies st) (mitreMappings st)
    (currentScanId st) (currentVulnerabilityId st) (currentSubdomainId st)
    (currentTechnologyId st) (currentMappingId st).

Definition createVulnerability (scanId : nat) (severity type description : string)
    (cvss remediation : option string) (st : Storage) : Vulnerability * Storage :=
  let id := currentVulnerabilityId st in
  let row := mkVulnerability id scanId severity type description cvss remediation in
  (row,
   mkStorage (scans st) (vulnerabilities st ++ [row]) (subdomains st)
     (technologies st) (mitreMappings st)
     (currentScanId st) (S id) (currentSubdomainId st)
     (currentTechnologyId st) (currentMappingId st)).

Definition getVulnerabilitiesByScan (scanId : nat) (st : Storage) : list Vulnerability :=
  List.filter (fun vuln => Nat.eqb (v_scanId vuln) scanId) (vulnerabilities st).

Definition createSubdomain (scanId : nat) (subdomain : string)
    (ipAddress : option string) (status : string)
    (techs : option (list Recon.Technology)) (st : Storage) : Subdomain * Storage :=
  let id := currentSubdomainId st in
  let row := mkSubdomain id scanId subdomain ipAddress status techs in
  (row,
   mkStorage (scans st) (vulnerabilities st) (subdomains st ++ [row])
     (technologies st) (mitreMappings st)
     (currentScanId st) (currentVulnerabilityId st) (S id)
     (currentTechnologyId st) (currentMappingId st)).

Definition getSubdomainsByScan (scanId : nat) (st : Storage) : list Subdomain :=
  List.filter (fun row => Nat.eqb (sd_scanId row) scanId) (subdomains st).

Definition createTechnology (scanId : nat) (name : string) (version : option string)
    (category : string) (confidence : option nat) (st : Storage) : Technology * Storage :=
  let id := currentTechnologyId st in
  let row := mkTechnology id scanId name version category confidence in
  (row,
   mkStorage (scans st) (vulnerabilities st) (subdomains st)
     (technologies st ++ [row]) (mitreMappings st)
     (currentScanId st) (currentVulnerabilityId st) (currentSubdomainId st)
     (S id) (currentMappingId st)).

Definition getTechnologiesByScan (scanId : nat) (st : Storage) : list Technology :=
  List.filter (fun row => Nat.eqb (t_scanId row) scanId) (technologies st).

Definition createVulnerabilityMitreMapping (vulnerabilityId : nat)
    (techniqueId : string) (confidence : float) (reasoning : option string)
    (st : Storage) : VulnerabilityMitreMapping * Storage :=
  let id := currentMappingId st in
  let row := mkVulnerabilityMitreMapping id vulnerabilityId techniqueId confidence reasoning in
  (row,
   mkStorage (scans st) (vulnerabilities st) (subdomains st)
     (technologies st) (mitreMappings st ++ [row])
     (currentScanId st) (currentVulnerabilityId st) (currentSubdomainId st)
     (currentTechnologyId st) (S id)).

Definition getVulnerabilityMitreMappings (vulnerabilityId : nat) (st : Storage)
    : list VulnerabilityMitreMapping :=
  List.filter (fun row => Nat.eqb (m_vulnerabilityId row) vulnerabilityId)
    (mitreMappings st).

End Storage.

(* ===================================================================== *)
(** ** server/routes.ts: the observer registry, the route, [performScan] *)
(* ===================================================================== *)

Module Routes.
Import PrimFloat JsString Schema.

(** *** Progress events and the WebSocket registry *)

(** The [update] object handed to [broadcast]. *)
Record Update : Type := mkUpdate {
  status : string;
  progress : option nat;
  riskScore : option float;
  message : option string
}.

(** [{ type: 'scan_update', scanId, data: update }]; [JSON.stringify] is
    left symbolic, two messages being equal when their fields are. *)
Record Message : Type := mkMessage {
  msg_type : string;
  msg_scanId : nat;
  msg_data : Update
}.

Inductive ReadyState : Type := CONNECTING | OPEN | CLOSING | CLOSED.

(** A client socket: its state and what was written to it so far. *)
Record WebSocket : Type := mkWebSocket {
  readyState : ReadyState;
  sent : list Message
}.

Definition is_open (ws : WebSocket) : bool :=
  match readyState ws with OPEN => true | _ => false end.

(** [client.send(message)] *)
Definition send (message : Message) (ws : WebSocket) : WebSocket :=
  mkWebSocket (readyState ws) (sent ws ++ [message]).

(** [wss.on('connection')]: the socket is stored under a fresh identifier. *)
Definition on_connection (clientId : string) (ws : WebSocket)
    (clients : gmap string WebSocket) : gmap string WebSocket :=
  <[clientId := ws]> clients.

(** [ws.on('close')] *)
Definition on_close (clientId : string) (clients : gmap string WebSocket)
    : gmap string WebSocket :=
  delete clientId clients.

Definition broadcastUpdate (scanId : nat) (update : Update)
    (clients : gmap string WebSocket) : gmap string WebSocket :=
  let message := mkMessage "scan_update" scanId update in
  (fun client => if is_open client then send message client else client) <$> clients.

(** *** The world [performScan] runs in *)

(** The storage, the state [H] behind the [broadcast] callback, and the
    server clock read by [new Date()]. *)
Record World (H : Type) : Type := mkWorld {
  storage : Storage.Storage;
  hub : H;
  clock : Timestamp
}.
Arguments mkWorld {H} storage hub clock.
Arguments storage {H} w.
Arguments hub {H} w.
Arguments clock {H} w.

Definition with_storage {H} (f : Storage.Storage -> Storage.Storage) (w : World H)
    : World H :=
  mkWorld (f (storage w)) (hub w) (clock w).

(** [for (const x of xs) { await body(x) }] for a body that cannot throw. *)
Definition for_each {A S} (body : A -> S -> S) (xs : list A) (s : S) : S :=
  fold_left (fun s x => body x s) xs s.

(** The outside world of one scan: what the probes, the vulnerability
    inference and the per-vulnerability technique inference answer. *)
Record Services : Type := mkServices {
  probes : string -> Recon.ProbeOutcomes;
  inference : string -> Recon.ReconResults -> OpenAI.ProviderReply;
  mitreInference : Vulnerability -> Mitre.ProviderReply
}.

(** [tech.version || null] *)
Definition or_null (v : option string) : option string :=
  match v with
  | Some s => if truthy s then Some s else None
  | None => None
  end.

Definition running (p : nat) (msg : option string) : Update :=
  mkUpdate "running" (Some p) None msg.

Section PerformScan.
Context {H : Type}.
Variable svc : Services.

(** The [broadcast: Function] argument. *)
Variable broadcast : nat -> Update -> World H -> World H.

Definition storeSubdomain (scanId : nat) (subdomain : string)
    (st : Storage.Storage) : Storage.Storage :=
  snd (Storage.createSubdomain scanId subdomain None "active" None st).

Definition storeTechnology (scanId : nat) (tech : Recon.Technology)
    (st : Storage.Storage) : Storage.Storage :=
  snd (Storage.createTechnology scanId (Recon.name tech)
         (or_null (Recon.version tech)) (Recon.category tech) (Some 85) st).

Definition storeVulnerability (scanId : nat) (vuln : OpenAI.Finding)
    (st : Storage.Storage) : Storage.Storage :=
  snd (Storage.createVulnerability scanId (OpenAI.severity vuln) (OpenAI.type vuln)
         (OpenAI.description vuln) (Some (OpenAI.cvss vuln))
         (Some (OpenAI.remediation vuln)) st).

Definition storeMapping (vulnerabilityId : nat) (mapping : Mitre.MitreAttackMapping)
    (st : Storage.Storage) : Storage.Storage :=
  snd (Storage.createVulnerabilityMitreMapping vulnerabilityId
         (Mitre.techniqueId mapping) (Mitre.confidence mapping)
         (Some (Mitre.reasoning mapping)) st).

(** One turn of the loop over the vulnerabilities of the scan. *)
Definition mapVulnerability (vulnerability : Vulnerability)
    (st : Storage.Storage) : Storage.Storage :=
  let mitreAnalysis :=
    Mitre.analyzeVulnerabilityForMitre (mitreInference svc vulnerability) vulnerability in
  for_each (storeMapping (v_id vulnerability)) (Mitre.mappings mitreAnalysis) st.

(** The [try] block: the world when it ends, and the message of the
    error when it ends by one. *)
Definition performScan_try (scanId : nat) (target scanType : string) (w : World H)
    : Result unit * World H :=
  let w := with_storage (Storage.updateScan scanId
             (mkScanUpdates (Some "running") (Some (Some 0)) None None None)) w in
  let w := broadcast scanId (running 0 None) w in
  let w := broadcast scanId (running 25 (Some "Starting reconnaissance...")) w in
  match Recon.performReconnaissance target (probes svc target) with
  | Throw e => (Throw e, w)
  | Ok reconResults =>
      let w := broadcast scanId (running 50 (Some "Analyzing subdomains...")) w in
      let w := with_storage
                 (for_each (storeSubdomain scanId) (Recon.subdomains reconResults)) w in
      let w := broadcast scanId (running 65 (Some "Identifying technologies...")) w in
      let w := with_storage
                 (for_each (storeTechnology scanId) (Recon.technologies reconResults)) w in
      let w := broadcast scanId
                 (running 80 (Some "Analyzing vulnerabilities with AI...")) w in
      match OpenAI.analyzeVulnerabilities (inference svc target reconResults) with
      | Throw e => (Throw e, w)
      | Ok vulnerabilityAnalysis =>
          match OpenAI.vulnerabilities vulnerabilityAnalysis with
          | None => (Throw "vulnerabilityAnalysis.vulnerabilities is not iterable", w)
          | Some vulns =>
              let w := with_storage (for_each (storeVulnerability scanId) vulns) w in
              let w := broadcast scanId
                         (running 90 (Some "Mapping to MITRE ATT&CK framework...")) w in
              let vulnerabilities := Storage.getVulnerabilitiesByScan scanId (storage w) in
              let w := with_storage (for_each mapVulnerability vulnerabilities) w in
              let w := with_storage (Storage.updateScan scanId
                         (mkScanUpdates (Some "completed") (Some (Some 100))
                            (Some (Some (JsNumber.Math_round
                                           (OpenAI.riskScore vulnerabilityAnalysis))))
                            (Some (Some reconResults))
                            (Some (Some (clock w))))) w in
              let w := broadcast scanId
                         (mkUpdate "completed" (Some 100)
                            (Some (OpenAI.riskScore vulnerabilityAnalysis))
                            (Some "Scan completed successfully")) w in
              (Ok tt, w)
          end
      end
  end.

(** [performScan]: the [try] block, and the [catch] block after an error. *)
Definition performScan (scanId : nat) (target scanType : string) (w : World H)
    : World H :=
  match performScan_try scanId target scanType w with
  | (Ok _, w) => w
  | (Throw e, w) =>
      let w := with_storage (Storage.updateScan scanId
                 (mkScanUpdates (Some "failed") None None None (Some (Some (clock w))))) w in
      broadcast scanId (mkUpdate "failed" None None (Some (String.append "Scan failed: " e))) w
  end.

(** *** POST /api/scans *)

(** The two fields of [req.body] the schema reads; [None] when the field
    is missing or is not a string. *)
Record ScanRequestBody : Type := mkScanRequestBody {
  body_target : option string;
  body_scanType : option string
}.

(** [scanRequestSchema.parse]: both fields are strings of length at least
    one; [None] stands for the [ZodError]. *)
Definition scanRequestSchema_parse (body : ScanRequestBody) : option (string * string) :=
  match body_target body, body_scanType body with
  | Some target, Some scanType =>
      if (1 <=? String.length target)%nat && (1 <=? String.length scanType)%nat
      then Some (target, scanType) else None
  | _, _ => None
  end.

Inductive Response : Type :=
| Json (scan : Scan)                     (* [res.json(scan)] *)
| BadRequest (error : string).           (* [res.status(400).json(...)] *)

(** The call [performScan(scan.id, scan.target, scan.scanType, ...)] that
    the handler starts without awaiting it. *)
Record Background : Type := mkBackground {
  bg_scanId : nat;
  bg_target : string;
  bg_scanType : string
}.

(** The handler up to the point where the response has been sent. *)
Definition post_api_scans (body : ScanRequestBody) (w : World H)
    : Response * World H * option Background :=
  match scanRequestSchema_parse body with
  | Some (target, scanType) =>
      let '(scan, st) := Storage.createScan target scanType (clock w) (storage w) in
      (Json scan, mkWorld st (hub w) (clock w),
       Some (mkBackground (s_id scan) (s_target scan) (s_scanType scan)))
  | None => (BadRequest "Invalid scan data", w, None)
  end.

(** The background task, run to its end. *)
Definition run_background (task : option Background) (w : World H) : World H :=
  match task with
  | Some bg => performScan (bg_scanId bg) (bg_target bg) (bg_scanType bg) w
  | None => w
  end.

End PerformScan.

(** *** Two [broadcast] callbacks *)

(** The one the server passes: [broadcastUpdate] over the registry. *)
Definition broadcast_clients (scanId : nat) (update : Update)
    (w : World (gmap string WebSocket)) : World (gmap string WebSocket) :=
  mkWorld (storage w) (broadcastUpdate scanId update (hub w)) (clock w).

(** An observer for the statements below: it keeps every event it is
    handed and answers it with the status query of the progress channel,
    noting the progress of the stored record at that moment. *)
Definition storedProgress (scanId : nat) (st : Storage.Storage) : option nat :=
  match Storage.getScan scanId st with
  | Some scan => s_progress scan
  | None => None
  end.

Record Observation : Type := mkObservation {
  obs_scanId : nat;
  obs_update : Update;
  obs_stored : option nat
}.

Definition broadcast_observe (scanId : nat) (update : Update)
    (w : World (list Observation)) : World (list Observation) :=
  mkWorld (storage w)
    (hub w ++ [mkObservation scanId update (storedProgress scanId (storage w))])
    (clock w).

End Routes.

(* ===================================================================== *)
(** ** The specification's wording, and the views the statements use *)
(* ===================================================================== *)

(** The keyword rules, the severity table and the line-by-line reading of
    the registry output follow the text of the specification, not the
    code; the theorems below compare them with the code.  The rest of the
    module names what the statements look at: views of rows, of events
    and of detector results. *)
Module SpecWording.
Import PrimFloat JsString Schema.

(** *** The keyword rules of the fallback mapping (section 4.4) *)





(** critical=95, high=80, medium=60, low=30, default=50; the tag is read
    without regard to letter case. *)
Definition severityScores : list (string * float) :=
  [ ("critical", 95%float); ("high", 80%float);
    ("medium", 60%float); ("low", 30%float) ].

Definition severityTable (severity : string) : float :=
  match List.find (fun entry => String.eqb (toLowerCase severity) (fst entry))
          severityScores with
  | Some entry => snd entry
  | None => 50%float
  end.

#[local] Set Warnings "-inexact-float".

(** likelihood = 0.8 x score, impact = score, overall = 0.9 x score. *)
Definition fallbackRisk (severity : string) : Mitre.RiskAssessment :=
  let score := severityTable severity in
  Mitre.mkRiskAssessment (0.8 * score)%float score (0.9 * score)%float.

(** *** The registry output, line by line (section 4.1) *)

(** Split at the first occurrence of the separator, if there is one. *)
Fixpoint cutAtFirst (sep : ascii) (s : string) : option (string * string) :=
  match s with
  | EmptyString => None
  | String c r =>
      if Ascii.eqb c sep then Some (EmptyString, r)
      else match cutAtFirst sep r with
           | Some (k, v) => Some (String c k, v)
           | None => None
           end
  end.

(** The entry a line contributes: none without a colon, none with an
    empty value (nor with nothing before the colon); otherwise the
    lower-cased key and the value. *)
Definition whoisEntry (line : string) : option (string * string) :=
  match cutAtFirst Recon.colon line with
  | None => None
  | Some (key, rest) =>
      if is_empty key || is_empty (trim rest) then None
      else Some (toLowerCase (trim key), trim rest)
  end.

Definition addEntry (data : gmap string string) (line : string) : gmap string string :=
  match whoisEntry line with
  | Some (key, value) => Recon.js_set key value data
  | None => data
  end.

Definition whoisMap (output : string) : gmap string string :=
  fold_left addEntry (split Recon.newline output) ∅.

(** What a mapping and a rule are compared by. *)
Definition mappingKey (m : Mitre.MitreAttackMapping) : string * float :=
  (Mitre.techniqueId m, Mitre.confidence m).


(** *** The web fingerprint *)


(** The identifications of one category. *)
Definition ofCategory (c : string) (l : list Recon.Technology) : list Recon.Technology :=
  List.filter (fun t => String.eqb (Recon.category t) c) l.

(** *** The sequencer *)

(** The progress values carried by a sequence of events; an event without
    a progress field contributes none. *)
Definition progressValues (events : list Routes.Observation) : list nat :=
  omap (fun o => Routes.progress (Routes.obs_update o)) events.

Definition statuses (events : list Routes.Observation) : list string :=
  map (fun o => Routes.status (Routes.obs_update o)) events.

(** What an observation shows: status and progress of the event, and the
    progress of the stored record when the event was published. *)
Definition glance (o : Routes.Observation) : string * option nat * option nat :=
  (Routes.status (Routes.obs_update o), Routes.progress (Routes.obs_update o),
   Routes.obs_stored o).

(** The stored record of a scan was given its identifier by the counter. *)
Definition fresh (st : Storage.Storage) : Prop :=
  Forall (fun scan => s_id scan < Storage.currentScanId st) (Storage.scans st).

(** What a stored row says, without its serial number, and the row each
    stage derives from its input. *)
Definition subdomainView (r : Subdomain) : nat * string * string :=
  (sd_scanId r, sd_subdomain r, sd_status r).

Definition subdomainOf (scanId : nat) (subdomain : string) : nat * string * string :=
  (scanId, subdomain, "active").

Definition technologyView (r : Technology)
    : nat * string * option string * string * option nat :=
  (t_scanId r, t_name r, t_version r, t_category r, t_confidence r).

Definition technologyOf (scanId : nat) (t : Recon.Technology)
    : nat * string * option string * string * option nat :=
  (scanId, Recon.name t, Routes.or_null (Recon.version t), Recon.category t, Some 85).

Definition vulnerabilityView (r : Vulnerability)
    : nat * string * string * string * option string * option string :=
  (v_scanId r, v_severity r, v_type r, v_description r, v_cvss r, v_remediation r).

Definition vulnerabilityOf (scanId : nat) (f : OpenAI.Finding)
    : nat * string * string * string * option string * option string :=
  (scanId, OpenAI.severity f, OpenAI.type f, OpenAI.description f,
   Some (OpenAI.cvss f), Some (OpenAI.remediation f)).

Definition mappingView (r : VulnerabilityMitreMapping)
    : nat * string * float * option string :=
  (m_vulnerabilityId r, m_techniqueId r, m_confidence r, m_reasoning r).

Definition mappingOf (vulnerabilityId : nat) (m : Mitre.MitreAttackMapping)
    : nat * string * float * option string :=
  (vulnerabilityId, Mitre.techniqueId m, Mitre.confidence m, Some (Mitre.reasoning m)).

(** The mappings the technique stage derives for one stored vulnerability. *)
Definition mappingsOf (svc : Routes.Services) (v : Vulnerability)
    : list (nat * string * float * option string) :=
  map (mappingOf (v_id v))
    (Mitre.mappings
       (Mitre.analyzeVulnerabilityForMitre (Routes.mitreInference svc v) v)).

End SpecWording.

(* ===================================================================== *)
(** ** Concrete scenarios *)
(* ===================================================================== *)

Module Scenario.
Import PrimFloat Schema Routes.

(** The probes of a reachable host: two subdomains that resolve, two open
    ports, a web server banner, and no whois binary on the machine. *)
Definition probeOutcomes : Recon.ProbeOutcomes :=
  Recon.mkProbeOutcomes
    (Fulfilled ["www.a.example.com"; "api.a.example.com"])
    (Fulfilled [80; 443])
    (Fulfilled [Recon.mkDnsRecord "A" "192.0.2.10"])
    (Recon.getWebInfo
       (Fulfilled (Recon.mkHttpResponse (<["server" := "nginx/1.18.0"]> ∅) (Some 200) None))
       (Rejected "unused"))
    (Recon.getWhoisData (Rejected "spawn whois ENOENT")).

Definition findings : list OpenAI.Finding :=
  [ OpenAI.mkFinding "high" "SQL Injection in Login Form" "unsanitised input" "9.8"
      "use prepared statements";
    OpenAI.mkFinding "low" "Exposed service port" "port 8080 is reachable" "3.1"
      "close the port" ].

(** Inference answers; the technique provider is down, so the mapper
    falls back on the keyword rules. *)
Definition services : Services :=
  mkServices (fun _ => probeOutcomes)
    (fun _ _ => OpenAI.Parsed
                  (OpenAI.mkVulnerabilityAnalysis 7.5 "high" "two findings" []
                     (Some findings)))
    (fun _ => Mitre.CallFailed "503 Service Unavailable").

(** The vulnerability inference is down. *)
Definition servicesInferenceDown : Services :=
  mkServices (fun _ => probeOutcomes)
    (fun _ _ => OpenAI.CallFailed "503 Service Unavailable")
    (fun _ => Mitre.CallFailed "503 Service Unavailable").

(** A server that has just started: empty tables, nothing published. *)
Definition freshWorld : World (list Observation) :=
  mkWorld Storage.empty [] 1000.

Definition request (target : string) : ScanRequestBody :=
  mkScanRequestBody (Some target) (Some "comprehensive").

(** The server after the submission of [target] has been answered. *)
Definition submitted (target : string) : World (list Observation) :=
  snd (fst (post_api_scans (request target) freshWorld)).

(** The server after the background scan of that submission has ended. *)
Definition scanned (svc : Services) (target : string) : World (list Observation) :=
  run_background svc broadcast_observe
    (snd (post_api_scans (request target) freshWorld)) (submitted target).

End Scenario.

(* ===================================================================== *)
(** ** server/services/reconnaissance.ts: the probes *)
(* ===================================================================== *)

Module Probes.
Import JsString Recon.

(** *** Subdomain sweep *)

Definition commonSubdomains : list string :=
  [ "www"; "mail"; "ftp"; "admin"; "api"; "dev"; "test"; "staging";
    "blog"; "shop"; "secure"; "vpn"; "remote"; "support"; "help";
    "cdn"; "static"; "media"; "assets"; "images"; "video"; "app";
    "mobile"; "beta"; "alpha"; "demo"; "portal"; "dashboard" ].

(** [`${sub}.${target}`] *)
Definition subdomainOf (sub target : string) : string :=
  String.append sub (String.append "." target).

(** [enumerateSubdomains]; [resolveDNS] tells how [dns.lookup] ends for a
    host name.  The inner [try] drops a candidate that does not resolve;
    nothing else in the loop throws. *)
Definition enumerateSubdomains (resolveDNS : string -> Settled unit) (target : string)
    : Settled (list string) :=
  let subdomains :=
    fold_left
      (fun subdomains sub =>
         let subdomain := subdomainOf sub target in
         match resolveDNS subdomain with
         | Fulfilled _ => subdomains ++ [subdomain]
         | Rejected _ => subdomains
         end)
      commonSubdomains [] in
  Fulfilled subdomains.

(** *** Port liveness sweep *)

#[local] Set Warnings "-abstract-large-number".

Definition commonPorts : list nat :=
  [21; 22; 23; 25; 53; 80; 110; 143; 443; 993; 995; 8080; 8443; 3000;
   3306; 5432; 6379; 27017].

(** The first of the three socket events that [checkPort] listens to. *)
Inductive SocketEvent : Type := Connect | Timeout | Error.

Definition checkPort (event : SocketEvent) : Settled bool :=
  match event with
  | Connect => Fulfilled true
  | Timeout => Fulfilled false
  | Error => Fulfilled false
  end.

(** The body of [results.forEach((result, index) => ...)]: a port is read
    back from the candidate list by the index of its result. *)
Definition collectPort (openPorts : list nat) (entry : nat * Settled bool) : list nat :=
  match snd entry with
  | Fulfilled true =>
      match commonPorts !! fst entry with
      | Some port => openPorts ++ [port]
      | None => openPorts
      end
  | _ => openPorts
  end.

(** [scanPorts], given the promise each candidate port's check came to. *)
Definition scanPorts (check : nat -> Settled bool) : Settled (list nat) :=
  let portPromises := map check commonPorts in
  let results := portPromises in
  Fulfilled (fold_left collectPort (imap pair results) []).

(** *** DNS-record collection *)

(** What the resolver calls of one target come to. *)
Record DnsAnswers : Type := mkDnsAnswers {
  resolve4 : Settled (list string);
  resolve6 : Settled (list string);
  resolveMx : Settled (list (nat * string));      (* priority, exchange *)
  resolveTxt : Settled (list (list string));      (* the chunks of each record *)
  resolveNs : Settled (list string)
}.

Definition settled_map {A B} (f : A -> B) (s : Settled A) : Settled B :=
  match s with
  | Fulfilled a => Fulfilled (f a)
  | Rejected e => Rejected e
  end.

(** A natural number printed in decimal, as in a template literal. *)
Definition decimal (n : nat) : string := NilZero.string_of_uint (Nat.to_uint n).

Definition getDNSRecord (dns : DnsAnswers) (type : string) : Settled (list string) :=
  if String.eqb type "A" then resolve4 dns
  else if String.eqb type "AAAA" then resolve6 dns
  else if String.eqb type "MX" then
    settled_map
      (map (fun mx => String.append (decimal (fst mx)) (String.append " " (snd mx))))
      (resolveMx dns)
  else if String.eqb type "TXT" then
    settled_map (map (join EmptyString)) (resolveTxt dns)
  else if String.eqb type "NS" then resolveNs dns
  else Rejected (String.append "Unsupported DNS record type: " type).

Definition tagged (type : string) (values : list string) : list DnsRecord :=
  map (mkDnsRecord type) values.

(** [getDNSRecords]: the five lookups are awaited one after the other
    inside one [try]; the [catch] block ends the function with the records
    pushed so far. *)
Definition getDNSRecords (dns : DnsAnswers) : Settled (list DnsRecord) :=
  let records := [] in
  match getDNSRecord dns "A" with
  | Rejected _ => Fulfilled records
  | Fulfilled aRecords =>
      let records := records ++ tagged "A" aRecords in
      match getDNSRecord dns "AAAA" with
      | Rejected _ => Fulfilled records
      | Fulfilled aaaaRecords =>
          let records := records ++ tagged "AAAA" aaaaRecords in
          match getDNSRecord dns "MX" with
          | Rejected _ => Fulfilled records
          | Fulfilled mxRecords =>
              let records := records ++ tagged "MX" mxRecords in
              match getDNSRecord dns "TXT" with
              | Rejected _ => Fulfilled records
              | Fulfilled txtRecords =>
                  let records := records ++ tagged "TXT" txtRecords in
                  match getDNSRecord dns "NS" with
                  | Rejected _ => Fulfilled records
                  | Fulfilled nsRecords =>
                      Fulfilled (records ++ tagged "NS" nsRecords)
                  end
              end
          end
      end
  end.

(** *** The five probes of one target *)

(** The network as one scan meets it. *)
Record Network : Type := mkNetwork {
  net_lookup : string -> Settled unit;             (* [dns.lookup] of a host name *)
  net_socket : string -> nat -> SocketEvent;       (* a connection to host and port *)
  net_dns : string -> DnsAnswers;                  (* the resolver calls for a host *)
  net_https : string -> Settled HttpResponse;      (* GET / on port 443 *)
  net_http : string -> Settled HttpResponse;       (* GET / on port 80 *)
  net_exec : string -> Settled string              (* a shell command's standard output *)
}.

(** The array handed to [Promise.allSettled] in [performReconnaissance]. *)
Definition launchProbes (net : Network) (target : string) : ProbeOutcomes :=
  mkProbeOutcomes
    (enumerateSubdomains (net_lookup net) target)
    (scanPorts (fun port => checkPort (net_socket net target port)))
    (getDNSRecords (net_dns net target))
    (getWebInfo (net_https net target) (net_http net target))
    (getWhoisData (net_exec net (String.append "whois " target))).

End Probes.

(* ===================================================================== *)
(** ** Views used by the statements about the probes *)
(* ===================================================================== *)

Module Views.
Import JsString Recon Probes.

(** A port check that was fulfilled with [true]. *)
Definition answeredOpen (s : Settled bool) : bool :=
  match s with Fulfilled true => true | _ => false end.

Definition fulfilled {A} (s : Settled A) : bool :=
  match s with Fulfilled _ => true | Rejected _ => false end.

(** The record kinds in the order of the lookups. *)
Definition dnsKinds : list string := ["A"; "AAAA"; "MX"; "TXT"; "NS"].

(** The tagged records of the kinds that precede the first rejected
    lookup. *)
Fixpoint untilRejected (dns : DnsAnswers) (kinds : list string) : list DnsRecord :=
  match kinds with
  | [] => []
  | kind :: rest =>
      match getDNSRecord dns kind with
      | Fulfilled values => tagged kind values ++ untilRejected dns rest
      | Rejected _ => []
      end
  end.

(** The characters of a host name: letters, digits, hyphen and dot. *)
Definition hostChar (c : ascii) : bool := alnum_dash c || Ascii.eqb c ".".

Definition first_char (s : string) : option ascii :=
  match s with EmptyString => None | String c _ => Some c end.

Fixpoint last_char (s : string) : option ascii :=
  match s with
  | EmptyString => None
  | String c EmptyString => Some c
  | String _ r => last_char r
  end.

Fixpoint all_chars (p : ascii -> bool) (s : string) : bool :=
  match s with
  | EmptyString => true
  | String c r => p c && all_chars p r
  end.

End Views.

(* ===================================================================== *)
(** ** server/routes.ts: the read-only routes and the join *)
(* ===================================================================== *)

Module Api.
Import Schema Storage.

(** [GET /api/scans/:id], for the identifier that [parseInt] read from
    the path: 404 without a record, otherwise the record with the rows of
    the three tables that carry its identifier. *)
Inductive DetailsResponse : Type :=
| Details (scan : Scan) (vulns : list Vulnerability) (subs : list Subdomain)
    (techs : list Technology)
| NotFound.

Definition get_api_scan (scanId : nat) (st : Storage) : DetailsResponse :=
  match getScan scanId st with
  | None => NotFound
  | Some scan =>
      Details scan (getVulnerabilitiesByScan scanId st) (getSubdomainsByScan scanId st)
        (getTechnologiesByScan scanId st)
  end.

(** [getMitreMappingsByScan]: the inner join of the mappings with the
    vulnerabilities on the vulnerability id, restricted to one scan. *)
Definition getMitreMappingsByScan (scanId : nat) (st : Storage)
    : list VulnerabilityMitreMapping :=
  flat_map
    (fun m =>
       map (fun _ => m)
         (List.filter
            (fun v => Nat.eqb (m_vulnerabilityId m) (v_id v) && Nat.eqb (v_scanId v) scanId)
            (vulnerabilities st)))
    (mitreMappings st).

(** A table that only gained rows, each of them satisfying [P]. *)
Definition appended {B} (P : B -> Prop) (old new : list B) : Prop :=
  exists rows, new = old ++ rows /\ Forall P rows.

(** The four row tables only gained rows, those of the first three
    tagged with [scanId]; no scan record was added or removed. *)
Definition grows (scanId : nat) (st st' : Storage) : Prop :=
  appended (fun r => sd_scanId r = scanId) (subdomains st) (subdomains st') /\
  appended (fun r => t_scanId r = scanId) (technologies st) (technologies st') /\
  appended (fun r => v_scanId r = scanId) (vulnerabilities st) (vulnerabilities st') /\
  appended (fun _ => True) (mitreMappings st) (mitreMappings st') /\
  map s_id (scans st') = map s_id (scans st) /\
  currentScanId st' = currentScanId st.

End Api.

(* ===================================================================== *)
(** ** Views used by the statements about the registry parser *)
(* ===================================================================== *)

Module WhoisViews.
Import JsString SpecWording.

(** The values that the lines contribute under one key, in line order. *)
Definition entriesFor (key : string) (lines : list string) : list string :=
  omap (fun line =>
          match whoisEntry line with
          | Some (k, v) => if String.eqb k key then Some v else None
          | None => None
          end) lines.

Definition differs (sep : ascii) (c : ascii) : bool := negb (Ascii.eqb c sep).

End WhoisViews.

(* ===================================================================== *)
(** ** server/routes.ts: the stored record behind each event *)
(* ===================================================================== *)

Module Inspect.
Import Schema Storage Routes.

(** A second observer of [performScan]: with each event it keeps the
    record of the scan as stored at the moment of the publication. *)
Record Snapshot : Type := mkSnapshot {
  snap_scanId : nat;
  snap_update : Update;
  snap_record : option Scan
}.

Definition broadcast_inspect (scanId : nat) (update : Update)
    (w : World (list Snapshot)) : World (list Snapshot) :=
  mkWorld (storage w)
    (hub w ++ [mkSnapshot scanId update (getScan scanId (storage w))])
    (clock w).

(** Status and progress of the event, then status and progress of the
    stored record. *)
Definition sight (s : Snapshot) : string * option nat * option string * option nat :=
  (status (snap_update s), progress (snap_update s),
   s_status <$> snap_record s,
   match snap_record s with Some scan => s_progress scan | None => None end).

End Inspect.

(* ===================================================================== *)
(** ** client: the progress shown for a scan (scan-results.tsx) *)
(* ===================================================================== *)

Module Client.
Import Routes.

(** [a || b] on numbers that may be missing: 0 and a missing value are
    both falsy. *)
Definition or_number (a : option nat) (b : nat) : nat :=
  match a with
  | Some (S n) => S n
  | _ => b
  end.

(** [scanProgress?.progress || scan.progress || 0] *)
Definition currentProgress (scanProgress : option Update) (scan_progress : option nat)
    : nat :=
  or_number (match scanProgress with Some u => progress u | None => None end)
    (or_number scan_progress 0).

End Client.

(* ===================================================================== *)
(** ** server/routes.ts: the registry while a scan is running *)
(* ===================================================================== *)

Module Live.
Import Schema Routes.

(** What can happen at the registry while [performScan] is suspended at
    an [await]: a client connects, the state of a socket changes, the
    close handler of a socket runs. *)
Inductive HubEvent : Type :=
| Connect (clientId : string)
| StateChange (clientId : string) (state : ReadyState)
| Close (clientId : string).


Definition hub_event (e : HubEvent) (clients : gmap string WebSocket)
    : gmap string WebSocket :=
  match e with
  | Connect c => on_connection c (mkWebSocket OPEN []) clients
  | StateChange c state => alter (fun ws => mkWebSocket state (sent ws)) c clients
  | Close c => on_close c clients
  end.

(** The registry, and what is going to happen at it before each of the
    publications to come: one batch of events per publication.  Two
    publications that no [await] separates have an empty batch between
    them. *)
Record Hub : Type := mkHub {
  registry : gmap string WebSocket;
  ahead : list (list HubEvent)
}.

Definition publish (scanId : nat) (update : Update) (h : Hub) : Hub :=
  let during := match ahead h with [] => [] | batch :: _ => batch end in
  mkHub
    (broadcastUpdate scanId update
       (fold_left (fun clients e => hub_event e clients) during (registry h)))
    (tl (ahead h)).

(** [broadcastUpdate] as the callback of a scan during which the registry
    changes. *)
Definition broadcast_live (scanId : nat) (update : Update) (w : World Hub)
    : World Hub :=
  mkWorld (storage w) (publish scanId update (hub w)) (clock w).

End Live.

(* ===================================================================== *)
(** * Properties *)
(* ===================================================================== *)

Import JsString.

(** ** Strings *)



Lemma lower_ascii_idem (c : ascii) : lower_ascii (lower_ascii c) = lower_ascii c.
Proof.
  destruct c as [[] [] [] [] [] [] [] []]; reflexivity.
Qed.

Lemma toLowerCase_idem (s : string) : toLowerCase (toLowerCase s) = toLowerCase s.
Proof.
  induction s as [|c s IH]; simpl; [reflexivity|].
  rewrite lower_ascii_idem, IH. reflexivity.
Qed.

(** ** The fan-out coordinator *)

Section FanOut.
Import Recon.

(** The value a slot leaves in its field: the probe's value, or the
    default the field started with. *)
Lemma when_fulfilled_spec {A} (slot : Settled A)
    (assign : A -> ReconResults -> ReconResults) (r : ReconResults) :
  when_fulfilled slot assign r =
  match slot with Fulfilled v => assign v r | Rejected _ => r end.
Proof. reflexivity. Qed.

Lemma performReconnaissance_total (tgt : string) (settled : ProbeOutcomes) :
  validateTarget tgt = true ->
  exists r, performReconnaissance tgt settled = Ok r.
Proof.
  intros Hv. unfold performReconnaissance. rewrite Hv. simpl. eauto.
Qed.

(** C2. For a validated target and any combination of probe outcomes,
    [performReconnaissance] returns an aggregate (it does not throw); each
    field carries its probe's value when the probe was fulfilled and the
    empty or absent default when it was rejected. *)
Theorem performReconnaissance_isolates_failures
    (tgt : string) (settled : ProbeOutcomes) :
  validateTarget tgt = true ->
  exists r,
    performReconnaissance tgt settled = Ok r /\
    target r = tgt /\
    subdomains r =
      match po_subdomains settled with Fulfilled v => v | Rejected _ => [] end /\
    openPorts r =
      match po_openPorts settled with Fulfilled v => v | Rejected _ => [] end /\
    dnsRecords r =
      match po_dnsRecords settled with Fulfilled v => v | Rejected _ => [] end /\
    match po_webInfo settled with
    | Fulfilled v =>
        headers r = wi_headers v /\ statusCode r = Some (wi_statusCode v) /\
        technologies r = wi_technologies v /\ certificates r = wi_certificates v
    | Rejected _ =>
        headers r = ∅ /\ statusCode r = None /\
        technologies r = [] /\ certificates r = None
    end /\
    whoisData r =
      match po_whoisData settled with Fulfilled v => Some v | Rejected _ => None end.
Proof.
  intros Hv. unfold performReconnaissance. rewrite Hv. cbn [negb].
  eexists. split; [reflexivity|].
  destruct settled as [s1 s2 s3 s4 s5]; cbn [po_subdomains po_openPorts
    po_dnsRecords po_webInfo po_whoisData].
  destruct s1, s2, s3, s4, s5; cbn; repeat split; reflexivity.
Qed.

Lemma performReconnaissance_isolates_failures_witness :
  exists r,
    performReconnaissance "a.example.com"
      (mkProbeOutcomes (Rejected "ENOTFOUND") (Fulfilled [80; 443])
         (Rejected "ENODATA") (Rejected "ECONNREFUSED") (Fulfilled None)) = Ok r /\
    subdomains r = [] /\ openPorts r = [80; 443] /\ whoisData r = Some None.
Proof.
  destruct (performReconnaissance_isolates_failures "a.example.com"
    (mkProbeOutcomes (Rejected "ENOTFOUND") (Fulfilled [80; 443])
       (Rejected "ENODATA") (Rejected "ECONNREFUSED") (Fulfilled None)))
    as (r & E & _ & Hs & Hp & _ & _ & Hw).
  - vm_compute. reflexivity.
  - exists r. repeat split; assumption.
Defined.

End FanOut.

(** ** The web fingerprint *)

Section Fingerprint.
Import Recon SpecWording.





Lemma detectServer_shape (h : gmap string string) :
  length (detectServer h) <= 1 /\
  ofCategory "web_server" (detectServer h) = detectServer h /\
  ofCategory "framework" (detectServer h) = [] /\
  ofCategory "cms" (detectServer h) = [].
Proof.
  unfold detectServer. repeat case_match; cbn; repeat split; lia.
Qed.

Lemma detectFramework_shape (h : gmap string string) :
  length (detectFramework h) <= 1 /\
  ofCategory "web_server" (detectFramework h) = [] /\
  ofCategory "framework" (detectFramework h) = detectFramework h /\
  ofCategory "cms" (detectFramework h) = [].
Proof.
  unfold detectFramework. repeat case_match; cbn; repeat split; lia.
Qed.

Lemma detectCms_shape (h : gmap string string) :
  length (detectCms h) <= 1 /\
  ofCategory "web_server" (detectCms h) = [] /\
  ofCategory "framework" (detectCms h) = [] /\
  ofCategory "cms" (detectCms h) = detectCms h.
Proof.
  unfold detectCms. repeat case_match; cbn; repeat split; lia.
Qed.




(** The detector at work: versions are cut from the lower-cased banner. *)
Example detectTechnologies_example :
  detectTechnologies
    (<["server" := "nginx/1.18.0 (Ubuntu)"]> (<["x-generator" := "Drupal 9"]> ∅)) =
  [ mkTechnology "Nginx" (Some "1.18.0") "web_server";
    mkTechnology "Drupal" None "cms" ].
Proof. vm_compute. reflexivity. Qed.

End Fingerprint.

(** ** The fallback mapping *)

Section Fallback.
Import PrimFloat Schema Mitre SpecWording.





(** The table and the two products, value by value. *)
Example fallbackRisk_values :
  fallbackRisk "critical" = mkRiskAssessment 76 95 85.5 /\
  fallbackRisk "high" = mkRiskAssessment 64 80 72 /\
  fallbackRisk "medium" = mkRiskAssessment 48 60 54 /\
  fallbackRisk "low" = mkRiskAssessment 24 30 27 /\
  fallbackRisk "informational" = mkRiskAssessment 40 50 45.
Proof. vm_compute. repeat split; reflexivity. Qed.

(** The two examples of section 8 of the specification. *)
Example fallback_sql_injection :
  let r := getFallbackMapping
             (mkVulnerability 1 1 "high" "SQL Injection in Login Form" "n/a" None None) in
  map mappingKey (mappings r) = [("T1190", 85%float)] /\ attackPath r = ["T1190"].
Proof. vm_compute. split; reflexivity. Qed.

Example fallback_privilege_escalation :
  let r := getFallbackMapping
             (mkVulnerability 2 1 "critical" "Privilege Escalation via Kernel Bug" "n/a"
                None None) in
  map mappingKey (mappings r) = [("T1068", 80%float)] /\ attackPath r = ["T1068"].
Proof. vm_compute. split; reflexivity. Qed.

(** Several rules can fire; the order is the order of the rules. *)
Example fallback_rule_order :
  attackPath (getFallbackMapping
                (mkVulnerability 3 1 "low" "Exposed service port allows XSS" "n/a" None None))
  = ["T1190"; "T1021"].
Proof. vm_compute. reflexivity. Qed.




End Fallback.

(** ** The registry lookup *)

Section Registry.
Import Recon SpecWording.

Lemma split_nonempty (sep : ascii) (s : string) : split sep s <> [].
Proof.
  destruct s as [|c r]; simpl; [discriminate|].
  destruct (Ascii.eqb c sep); [discriminate|].
  destruct (split sep r); discriminate.
Qed.

(** [split] cuts at the first separator and goes on with the rest. *)
Lemma split_cutAtFirst (sep : ascii) (s : string) :
  match cutAtFirst sep s with
  | None => split sep s = [s]
  | Some (k, v) => split sep s = k :: split sep v
  end.
Proof.
  induction s as [|c r IH]; simpl; [reflexivity|].
  destruct (Ascii.eqb c sep); [reflexivity|].
  destruct (cutAtFirst sep r) as [[k v]|]; rewrite IH; reflexivity.
Qed.

Lemma join_cons_char (sep : string) (c : ascii) (h : string) (t : list string) :
  join sep (String c h :: t) = String c (join sep (h :: t)).
Proof. destruct t; reflexivity. Qed.

Lemma join_cons_cons (sep p h : string) (t : list string) :
  join sep (p :: h :: t) = String.append p (String.append sep (join sep (h :: t))).
Proof. reflexivity. Qed.

(** Joining the pieces with the separator gives the string back. *)
Lemma join_split (sep : ascii) (s : string) :
  join (String sep EmptyString) (split sep s) = s.
Proof.
  induction s as [|c r IH]; simpl; [reflexivity|].
  destruct (Ascii.eqb_spec c sep) as [->|Hne].
  - pose proof (split_nonempty sep r) as Hn.
    destruct (split sep r) as [|h t]; [congruence|].
    rewrite join_cons_cons, IH. reflexivity.
  - pose proof (split_nonempty sep r) as Hn.
    destruct (split sep r) as [|h t]; [congruence|].
    rewrite join_cons_char, IH. reflexivity.
Qed.

Lemma length_split_pos (sep : ascii) (s : string) :
  (0 <? length (split sep s))%nat = true.
Proof.
  pose proof (split_nonempty sep s). destruct (split sep s); [congruence|reflexivity].
Qed.

(** The loop body of the parser is the entry-wise reading of a line. *)
Lemma whoisLine_addEntry (data : gmap string string) (line : string) :
  whoisLine data line = addEntry data line.
Proof.
  unfold whoisLine, addEntry, whoisEntry.
  pose proof (split_cutAtFirst colon line) as Hs.
  destruct (cutAtFirst colon line) as [[k v]|]; rewrite Hs.
  - rewrite length_split_pos, andb_true_r.
    change ":" with (String colon EmptyString). rewrite join_split.
    unfold truthy. destruct (is_empty k), (is_empty (trim v)); reflexivity.
  - cbn [length Nat.ltb Nat.leb]. rewrite andb_false_r. reflexivity.
Qed.

Lemma fold_left_ext_eq {A B} (f g : A -> B -> A) (l : list B) (a : A) :
  (forall x y, f x y = g x y) -> fold_left f l a = fold_left g l a.
Proof.
  intros E. revert a. induction l as [|y l IH]; intros a; simpl; [reflexivity|].
  rewrite E. apply IH.
Qed.

Lemma parseWhoisData_whoisMap (output : string) :
  parseWhoisData output = whoisMap output.
Proof.
  unfold parseWhoisData, whoisMap. apply fold_left_ext_eq, whoisLine_addEntry.
Qed.

(** C8, as the code has it. The parser reads the output line by line: a
    line is cut at its first colon, the key is trimmed and lower-cased, the
    value is trimmed; a line without a colon, or with an empty value (or
    with nothing before the colon), leaves the map as it was.  When the
    registry command fails the probe is still fulfilled, with [null] in
    place of a map. *)
Theorem whois_probe_parses_lines
    (output reason : string) (data : gmap string string) (line : string) :
  parseWhoisData output = whoisMap output /\
  match cutAtFirst colon line with
  | None => whoisLine data line = data
  | Some (key, rest) =>
      if is_empty key || is_empty (trim rest)
      then whoisLine data line = data
      else whoisLine data line = js_set (toLowerCase (trim key)) (trim rest) data
  end /\
  getWhoisData (Fulfilled output) = Fulfilled (Some (parseWhoisData output)) /\
  getWhoisData (Rejected reason) = Fulfilled None.
Proof.
  split; [apply parseWhoisData_whoisMap|].
  split; [|split; reflexivity].
  rewrite whoisLine_addEntry. unfold addEntry, whoisEntry.
  destruct (cutAtFirst colon line) as [[k v]|]; [|reflexivity].
  destruct (is_empty k || is_empty (trim v)); reflexivity.
Qed.

(** C8 as stated fails in its last part: on a failure of the registry
    command the probe's value is [null], not an empty map. *)
Lemma whois_failure_is_null_not_empty_map :
  getWhoisData (Rejected "Command failed: whois a.example.com")
  <> Fulfilled (Some ∅).
Proof. cbn. discriminate. Qed.

(** A registry answer with a value holding colons, a line without colon,
    an empty value and a repeated key. *)
Example parseWhoisData_example :
  map_to_list (parseWhoisData
    (String.concat (String newline EmptyString)
       [ "Domain Name: EXAMPLE.COM";
         "Updated Date:  2024-01-01T10:00:00Z ";
         "no colon here";
         "Registrar:";
         "Domain Name: example.org" ])) =
  [ ("updated date", "2024-01-01T10:00:00Z"); ("domain name", "example.org") ].
Proof. vm_compute. reflexivity. Qed.

End Registry.

(** ** The progress broadcaster *)

Section Broadcaster.
Import Schema Routes.

Lemma broadcastUpdate_lookup (scanId : nat) (update : Update)
    (clients : gmap string WebSocket) (clientId : string) :
  broadcastUpdate scanId update clients !! clientId =
  (fun client =>
     if is_open client then send (mkMessage "scan_update" scanId update) client
     else client) <$> clients !! clientId.
Proof. unfold broadcastUpdate. apply lookup_fmap. Qed.

(** C7, as the code has it. [broadcastUpdate] appends the message to every
    registered socket that is open, leaves every other registered socket
    untouched and still registered, and registers nobody; it is a total
    function, and what one socket receives does not depend on the state of
    another.  Sockets leave the registry only through their own close
    handler. *)
Theorem broadcastUpdate_delivers_to_open
    (scanId : nat) (update : Update) (clients : gmap string WebSocket)
    (clientId : string) (ws : WebSocket) :
  clients !! clientId = Some ws ->
  broadcastUpdate scanId update clients !! clientId =
    Some (if is_open ws
          then mkWebSocket (readyState ws)
                 (sent ws ++ [mkMessage "scan_update" scanId update])
          else ws) /\
  dom (broadcastUpdate scanId update clients) = dom clients /\
  on_close clientId (broadcastUpdate scanId update clients) !! clientId = None /\
  broadcastUpdate scanId update (on_close clientId clients) =
    on_close clientId (broadcastUpdate scanId update clients).
Proof.
  intros Hc. split; [|split; [|split]].
  - rewrite broadcastUpdate_lookup, Hc. reflexivity.
  - unfold broadcastUpdate. apply dom_fmap_L.
  - unfold on_close. apply lookup_delete_eq.
  - unfold on_close, broadcastUpdate. apply fmap_delete.
Qed.

Lemma broadcastUpdate_delivers_to_open_witness :
  let clients : gmap string WebSocket :=
    <["k3j9x0q1z" := mkWebSocket OPEN []]> (<["p0o9i8u7y" := mkWebSocket CLOSING []]> ∅) in
  broadcastUpdate 1 (running 25 None) clients !! "k3j9x0q1z" =
    Some (mkWebSocket OPEN [mkMessage "scan_update" 1 (running 25 None)]).
Proof.
  intros clients.
  apply (broadcastUpdate_delivers_to_open 1 (running 25 None) clients
           "k3j9x0q1z" (mkWebSocket OPEN [])).
  vm_compute. reflexivity.
Defined.

(** C7 as stated fails in one part: a socket that is not open is skipped
    but stays in the registry after the publication. *)
Lemma broadcastUpdate_keeps_closing_socket :
  broadcastUpdate 1 (mkUpdate "running" (Some 25) None None)
    (<["k3j9x0q1z" := mkWebSocket OPEN []]>
       (<["p0o9i8u7y" := mkWebSocket CLOSING []]> ∅)) !! "p0o9i8u7y"
  = Some (mkWebSocket CLOSING []).
Proof. vm_compute. reflexivity. Qed.

End Broadcaster.

(** ** The storage collaborator *)

Section StorageFacts.
Import PrimFloat Schema Storage Routes SpecWording.

Lemma for_each_frame {A S T} (proj : S -> T) (body : A -> S -> S)
    (xs : list A) (s : S) :
  (forall x s, proj (body x s) = proj s) ->
  proj (for_each body xs s) = proj s.
Proof.
  intros Hb. unfold for_each. revert s.
  induction xs as [|x xs IH]; intros s; simpl; [reflexivity|].
  rewrite IH. apply Hb.
Qed.

Lemma for_each_appends {A S K} (keys : S -> list K) (news : A -> list K)
    (body : A -> S -> S) (xs : list A) (s : S) :
  (forall x s, keys (body x s) = keys s ++ news x) ->
  keys (for_each body xs s) = keys s ++ concat (map news xs).
Proof.
  intros Hb. unfold for_each. revert s.
  induction xs as [|x xs IH]; intros s; simpl.
  - rewrite app_nil_r. reflexivity.
  - rewrite IH, Hb, <- app_assoc. reflexivity.
Qed.

Lemma concat_map_singleton {A B} (f : A -> B) (xs : list A) :
  concat (map (fun x => [f x]) xs) = map f xs.
Proof. induction xs as [|x xs IH]; simpl; [|rewrite IH]; reflexivity. Qed.

Lemma for_each_appends_one {A S K} (keys : S -> list K) (key : A -> K)
    (body : A -> S -> S) (xs : list A) (s : S) :
  (forall x s, keys (body x s) = keys s ++ [key x]) ->
  keys (for_each body xs s) = keys s ++ map key xs.
Proof.
  intros Hb. rewrite (for_each_appends keys (fun x => [key x])); [|exact Hb].
  rewrite concat_map_singleton. reflexivity.
Qed.

(** The tables as a tuple of views: what the loops are compared by. *)
Lemma storeSubdomain_effect (scanId : nat) (subs : list string) (st : Storage) :
  let st' := for_each (storeSubdomain scanId) subs st in
  scans st' = scans st /\ currentScanId st' = currentScanId st /\
  vulnerabilities st' = vulnerabilities st /\
  technologies st' = technologies st /\
  mitreMappings st' = mitreMappings st /\
  map subdomainView (subdomains st') =
    map subdomainView (subdomains st) ++ map (subdomainOf scanId) subs.
Proof.
  cbn zeta. repeat split.
  1-5: apply for_each_frame; reflexivity.
  apply (for_each_appends_one (fun st => map subdomainView (subdomains st))).
  intros x s. cbn. rewrite map_app. reflexivity.
Qed.

Lemma storeTechnology_effect (scanId : nat) (techs : list Recon.Technology)
    (st : Storage) :
  let st' := for_each (storeTechnology scanId) techs st in
  scans st' = scans st /\ currentScanId st' = currentScanId st /\
  vulnerabilities st' = vulnerabilities st /\
  subdomains st' = subdomains st /\
  mitreMappings st' = mitreMappings st /\
  map technologyView (technologies st') =
    map technologyView (technologies st) ++ map (technologyOf scanId) techs.
Proof.
  cbn zeta. repeat split.
  1-5: apply for_each_frame; reflexivity.
  apply (for_each_appends_one (fun st => map technologyView (technologies st))).
  intros x s. cbn. rewrite map_app. reflexivity.
Qed.

Lemma storeVulnerability_effect (scanId : nat) (vulns : list OpenAI.Finding)
    (st : Storage) :
  let st' := for_each (storeVulnerability scanId) vulns st in
  scans st' = scans st /\ currentScanId st' = currentScanId st /\
  subdomains st' = subdomains st /\
  technologies st' = technologies st /\
  mitreMappings st' = mitreMappings st /\
  map vulnerabilityView (vulnerabilities st') =
    map vulnerabilityView (vulnerabilities st) ++ map (vulnerabilityOf scanId) vulns.
Proof.
  cbn zeta. repeat split.
  1-5: apply for_each_frame; reflexivity.
  apply (for_each_appends_one (fun st => map vulnerabilityView (vulnerabilities st))).
  intros x s. cbn. rewrite map_app. reflexivity.
Qed.

Lemma storeMapping_effect (vulnerabilityId : nat)
    (ms : list Mitre.MitreAttackMapping) (st : Storage) :
  let st' := for_each (storeMapping vulnerabilityId) ms st in
  scans st' = scans st /\ currentScanId st' = currentScanId st /\
  subdomains st' = subdomains st /\
  technologies st' = technologies st /\
  vulnerabilities st' = vulnerabilities st /\
  map mappingView (mitreMappings st') =
    map mappingView (mitreMappings st) ++ map (mappingOf vulnerabilityId) ms.
Proof.
  cbn zeta. repeat split.
  1-5: apply for_each_frame; reflexivity.
  apply (for_each_appends_one (fun st => map mappingView (mitreMappings st))).
  intros x s. cbn. rewrite map_app. reflexivity.
Qed.

Lemma mapVulnerability_effect (svc : Services) (vs : list Vulnerability)
    (st : Storage) :
  let st' := for_each (mapVulnerability svc) vs st in
  scans st' = scans st /\ currentScanId st' = currentScanId st /\
  subdomains st' = subdomains st /\
  technologies st' = technologies st /\
  vulnerabilities st' = vulnerabilities st /\
  map mappingView (mitreMappings st') =
    map mappingView (mitreMappings st) ++ concat (map (mappingsOf svc) vs).
Proof.
  cbn zeta. repeat split.
  1-5: apply for_each_frame; intros x s; unfold mapVulnerability;
       apply (storeMapping_effect (v_id x)).
  apply (for_each_appends (fun st => map mappingView (mitreMappings st))).
  intros x s. unfold mapVulnerability, mappingsOf.
  apply (storeMapping_effect (v_id x)).
Qed.

Lemma find_map_preserving {A} (p : A -> bool) (f : A -> A) (l : list A) :
  (forall x, p (f x) = p x) ->
  find p (map f l) = f <$> find p l.
Proof.
  intros Hp. induction l as [|x l IH]; simpl; [reflexivity|].
  rewrite Hp. destruct (p x); [reflexivity|apply IH].
Qed.

(** Reading a record back after an update by identifier. *)
Lemma getScan_updateScan (id : nat) (updates : ScanUpdates) (st : Storage) :
  getScan id (updateScan id updates st) = applyUpdates updates <$> getScan id st.
Proof.
  unfold getScan, updateScan. cbn [scans].
  rewrite find_map_preserving.
  - destruct (find _ (scans st)) as [scan|] eqn:E; [|reflexivity].
    apply find_some in E as [_ E]. cbn. rewrite E. reflexivity.
  - intros x. destruct (Nat.eqb (s_id x) id) eqn:E; cbn; rewrite E; reflexivity.
Qed.

Lemma getScan_scans (id : nat) (st st' : Storage) :
  scans st' = scans st -> getScan id st' = getScan id st.
Proof. unfold getScan. intros ->. reflexivity. Qed.

Lemma storedProgress_scans (id : nat) (st st' : Storage) :
  scans st' = scans st -> storedProgress id st' = storedProgress id st.
Proof. unfold storedProgress. intros E. rewrite (getScan_scans id st st' E). reflexivity. Qed.

Lemma find_after_smaller (id : nat) (l : list Scan) (scan : Scan) :
  Forall (fun s => s_id s < id) l -> s_id scan = id ->
  find (fun s => Nat.eqb (s_id s) id) (l ++ [scan]) = Some scan.
Proof.
  intros Hl Hs. induction Hl as [|x l Hx Hl IH]; simpl.
  - rewrite Hs, Nat.eqb_refl. reflexivity.
  - destruct (Nat.eqb_spec (s_id x) id) as [E|_]; [lia|exact IH].
Qed.

(** A record created by [createScan] is the one read back under its id. *)
Lemma getScan_createScan (target scanType : string) (now : Timestamp) (st : Storage) :
  fresh st ->
  getScan (currentScanId st) (snd (createScan target scanType now st)) =
    Some (fst (createScan target scanType now st)) /\
  fresh (snd (createScan target scanType now st)).
Proof.
  unfold fresh, getScan. intros Hf. cbn. split.
  - apply find_after_smaller; [exact Hf|reflexivity].
  - apply Forall_app. split.
    + eapply Forall_impl; [exact Hf|]. cbn. intros; lia.
    + repeat constructor.
Qed.

End StorageFacts.

(** ** The stage sequencer *)

Section Sequencer.
Import PrimFloat Schema Storage Routes SpecWording.

Lemma storedProgress_updateScan (id : nat) (updates : ScanUpdates) (st : Storage) :
  storedProgress id (updateScan id updates st) =
  match getScan id st with
  | Some scan => override (u_progress updates) (s_progress scan)
  | None => None
  end.
Proof.
  unfold storedProgress. rewrite getScan_updateScan.
  destruct (getScan id st); reflexivity.
Qed.

(** The four tables of derived records are not touched by [updateScan]. *)
Lemma updateScan_tables (id : nat) (updates : ScanUpdates) (st : Storage) :
  subdomains (updateScan id updates st) = subdomains st /\
  technologies (updateScan id updates st) = technologies st /\
  vulnerabilities (updateScan id updates st) = vulnerabilities st /\
  mitreMappings (updateScan id updates st) = mitreMappings st.
Proof. repeat split; reflexivity. Qed.

(** Unfolds one run of [performScan] under the observer, leaving the
    storage operations folded. *)
Ltac run_scan :=
  unfold performScan, performScan_try;
  repeat match goal with
         | H : Recon.performReconnaissance _ _ = _ |- _ => rewrite H
         | H : OpenAI.analyzeVulnerabilities _ = _ |- _ => rewrite H
         | H : OpenAI.vulnerabilities _ = _ |- _ => rewrite H
         end;
  cbn [hub storage clock with_storage broadcast_observe fst snd].

Ltac flatten_log :=
  rewrite ?map_app; cbn [map glance obs_update obs_stored obs_scanId running
                           status progress message riskScore];
  rewrite <- ?app_assoc; cbn [app].

(** C3 as stated fails in its part (b): when the event of the checkpoint
    50 (or 25, 65, 80, 90) is published, the stored record still has
    progress 0. *)
Lemma stored_progress_lags_behind_events :
  map glance (hub (Scenario.scanned Scenario.services "a.example.com")) !! 2 =
    Some ("running", Some 50, Some 0).
Proof. vm_compute. reflexivity. Qed.

(** C4, as the code has it. When the vulnerability inference fails (the
    call is rejected or its text does not parse) the scan goes straight to
    failed: the stored record gets status failed and a completion time,
    its progress is left as stored, which is the 0 written on entry (no
    checkpoint after that is ever stored); exactly one failed event is
    published, last, without a progress field and with the message of the
    error behind the prefix "Scan failed: "; nothing is run again, and no
    vulnerability or mapping row is written. *)
Theorem performScan_inference_failure
    (svc : Services) (id : nat) (target scanType : string)
    (w : World (list Observation)) (scan : Scan) (rr : Recon.ReconResults) :
  getScan id (storage w) = Some scan ->
  Recon.performReconnaissance target (probes svc target) = Ok rr ->
  OpenAI.providerFailed (inference svc target rr) = true ->
  let w' := performScan svc broadcast_observe id target scanType w in
  map glance (hub w') =
    map glance (hub w) ++
    [ ("running", Some 0, Some 0); ("running", Some 25, Some 0);
      ("running", Some 50, Some 0); ("running", Some 65, Some 0);
      ("running", Some 80, Some 0); ("failed", None, Some 0) ] /\
  (obs_update <$> last (hub w')) =
    Some (mkUpdate "failed" None None
            (Some "Scan failed: Failed to analyze vulnerabilities with AI")) /\
  (exists scan',
     getScan id (storage w') = Some scan' /\
     s_status scan' = "failed" /\ s_progress scan' = Some 0 /\
     s_completedAt scan' = Some (clock w)) /\
  vulnerabilities (storage w') = vulnerabilities (storage w) /\
  mitreMappings (storage w') = mitreMappings (storage w).
Proof.
  intros Hs Hr Hf w'. subst w'.
  assert (Hi : OpenAI.analyzeVulnerabilities (inference svc target rr)
               = Throw "Failed to analyze vulnerabilities with AI")
    by (destruct (inference svc target rr); [reflexivity..|discriminate]).
  run_scan.
  set (up0 := mkScanUpdates (Some "running") _ _ _ _).
  set (st1 := updateScan id up0 (storage w)).
  set (st2 := for_each (storeSubdomain id) _ st1).
  set (st3 := for_each (storeTechnology id) _ st2).
  set (upF := mkScanUpdates (Some "failed") _ _ _ _).
  destruct (updateScan_tables id up0 (storage w)) as (_ & _ & T1c & T1d).
  destruct (storeSubdomain_effect id (Recon.subdomains rr) st1)
    as (S2 & _ & V2 & _ & M2 & _).
  destruct (storeTechnology_effect id (Recon.technologies rr) st2)
    as (S3 & _ & V3 & _ & M3 & _).
  fold st2 in S2, V2, M2. fold st3 in S3, V3, M3.
  assert (P1 : storedProgress id st1 = Some 0).
  { unfold st1. rewrite storedProgress_updateScan, Hs. reflexivity. }
  assert (G1 : getScan id st1 = Some (applyUpdates up0 scan)).
  { unfold st1. rewrite getScan_updateScan, Hs. reflexivity. }
  assert (P2 : storedProgress id st2 = Some 0)
    by (rewrite (storedProgress_scans id st1 st2) by congruence; exact P1).
  assert (P3 : storedProgress id st3 = Some 0)
    by (rewrite (storedProgress_scans id st1 st3) by congruence; exact P1).
  assert (G3 : getScan id st3 = Some (applyUpdates up0 scan))
    by (rewrite (getScan_scans id st1 st3) by congruence; exact G1).
  split; [|split; [|split; [|split]]].
  - flatten_log. rewrite P1, P2, P3, storedProgress_updateScan, G3. reflexivity.
  - rewrite last_snoc. reflexivity.
  - exists (applyUpdates upF (applyUpdates up0 scan)).
    rewrite getScan_updateScan, G3. repeat split; reflexivity.
  - cbn [updateScan vulnerabilities]. fold st3.
    rewrite V3, V2. unfold st1. exact T1c.
  - cbn [updateScan mitreMappings]. fold st3.
    rewrite M3, M2. unfold st1. exact T1d.
Qed.

Lemma performScan_inference_failure_witness :
  map glance (hub (Scenario.scanned Scenario.servicesInferenceDown "a.example.com")) =
    [ ("running", Some 0, Some 0); ("running", Some 25, Some 0);
      ("running", Some 50, Some 0); ("running", Some 65, Some 0);
      ("running", Some 80, Some 0); ("failed", None, Some 0) ].
Proof.
  refine (proj1 (performScan_inference_failure Scenario.servicesInferenceDown 1
            "a.example.com" "comprehensive" (Scenario.submitted "a.example.com")
            _ _ _ _ _)).
  - vm_compute. reflexivity.
  - vm_compute. reflexivity.
  - vm_compute. reflexivity.
Defined.

(** C4 as stated fails in one part: the scan passed the checkpoints 25,
    50, 65 and 80 before the inference failed, and the stored progress of
    the failed scan is 0, none of them. *)
Lemma failed_scan_stores_progress_zero :
  progressValues (hub (Scenario.scanned Scenario.servicesInferenceDown "a.example.com"))
    = [0; 25; 50; 65; 80] /\
  storedProgress 1
    (storage (Scenario.scanned Scenario.servicesInferenceDown "a.example.com"))
    = Some 0.
Proof. vm_compute. split; reflexivity. Qed.

(** The events of one run, whatever the outside world answers: the
    observations added to the log by [performScan]. *)
Lemma performScan_log_cases
    (svc : Services) (id : nat) (target scanType : string)
    (w : World (list Observation)) :
  exists events,
    hub (performScan svc broadcast_observe id target scanType w) = hub w ++ events /\
    Forall (fun o => obs_scanId o = id) events /\
    (map (fun o => (status (obs_update o), progress (obs_update o))) events =
       [ ("running", Some 0); ("running", Some 25); ("failed", None) ] \/
     map (fun o => (status (obs_update o), progress (obs_update o))) events =
       [ ("running", Some 0); ("running", Some 25); ("running", Some 50);
         ("running", Some 65); ("running", Some 80); ("failed", None) ] \/
     map (fun o => (status (obs_update o), progress (obs_update o))) events =
       [ ("running", Some 0); ("running", Some 25); ("running", Some 50);
         ("running", Some 65); ("running", Some 80); ("running", Some 90);
         ("completed", Some 100) ]).
Proof.
  unfold performScan, performScan_try.
  destruct (Recon.performReconnaissance target (probes svc target)) as [rr|e];
    [destruct (OpenAI.analyzeVulnerabilities (inference svc target rr)) as [an|e];
     [destruct (OpenAI.vulnerabilities an) as [vs|]|]|];
    cbn [hub storage clock with_storage broadcast_observe fst snd];
    rewrite <- ?app_assoc; cbn [app];
    (eexists; split; [reflexivity|]);
    (split; [repeat constructor|cbn; auto]).
Qed.

(** A target that fails the grammar is turned down by the reconnaissance
    stage, after the scan has been started. *)
Lemma performScan_invalid_target
    (svc : Services) (id : nat) (target scanType : string)
    (w : World (list Observation)) (scan : Scan) :
  getScan id (storage w) = Some scan ->
  Recon.validateTarget target = false ->
  let w' := performScan svc broadcast_observe id target scanType w in
  map glance (hub w') =
    map glance (hub w) ++
    [ ("running", Some 0, Some 0); ("running", Some 25, Some 0);
      ("failed", None, Some 0) ] /\
  (obs_update <$> last (hub w')) =
    Some (mkUpdate "failed" None None (Some "Scan failed: Invalid target format")) /\
  s_status <$> getScan id (storage w') = Some "failed".
Proof.
  intros Hs Hv w'. subst w'.
  assert (Hr : Recon.performReconnaissance target (probes svc target)
               = Throw "Invalid target format")
    by (unfold Recon.performReconnaissance; rewrite Hv; reflexivity).
  run_scan.
  split; [|split].
  - flatten_log. rewrite !storedProgress_updateScan, getScan_updateScan, Hs.
    reflexivity.
  - rewrite last_snoc. reflexivity.
  - rewrite !getScan_updateScan, Hs. reflexivity.
Qed.

Lemma scanRequestSchema_parse_None (body : ScanRequestBody) :
  scanRequestSchema_parse body = None <->
  body_target body = None \/ body_target body = Some EmptyString \/
  body_scanType body = None \/ body_scanType body = Some EmptyString.
Proof.
  unfold scanRequestSchema_parse.
  destruct (body_target body) as [[|a t]|], (body_scanType body) as [[|b ty]|];
    cbn; split; intros Hx; try discriminate; auto;
    destruct Hx as [Hx|[Hx|[Hx|Hx]]]; discriminate.
Qed.

(** C1, as the code has it. The submission route turns a request down,
    with status 400 and without creating a record, exactly when its target
    or its scan type is missing or empty.  Every other request, whatever
    its target looks like, creates a pending record with progress 0 and
    returns it at once; the grammar is checked later, by the
    reconnaissance stage of the background scan, which ends the scan of a
    malformed target as failed after the events 0 and 25. *)
Theorem post_api_scans_boundary
    (svc : Services) (body : ScanRequestBody) (w : World (list Observation)) :
  fresh (storage w) ->
  (scanRequestSchema_parse body = None <->
   body_target body = None \/ body_target body = Some EmptyString \/
   body_scanType body = None \/ body_scanType body = Some EmptyString) /\
  match scanRequestSchema_parse body with
  | None => post_api_scans body w = (BadRequest "Invalid scan data", w, None)
  | Some (target, scanType) =>
      exists scan w1,
        post_api_scans body w =
          (Json scan, w1, Some (mkBackground (s_id scan) target scanType)) /\
        s_target scan = target /\ s_status scan = "pending" /\
        s_progress scan = Some 0 /\
        getScan (s_id scan) (storage w1) = Some scan /\
        hub w1 = hub w /\
        (Recon.validateTarget target = false ->
         let w2 := run_background svc broadcast_observe
                     (Some (mkBackground (s_id scan) target scanType)) w1 in
         map glance (hub w2) =
           map glance (hub w) ++
           [ ("running", Some 0, Some 0); ("running", Some 25, Some 0);
             ("failed", None, Some 0) ] /\
         (obs_update <$> last (hub w2)) =
           Some (mkUpdate "failed" None None
                   (Some "Scan failed: Invalid target format")) /\
         s_status <$> getScan (s_id scan) (storage w2) = Some "failed")
  end.
Proof.
  intros Hf. split; [apply scanRequestSchema_parse_None|].
  unfold post_api_scans.
  destruct (scanRequestSchema_parse body) as [[target scanType]|]; [|reflexivity].
  destruct (getScan_createScan target scanType (clock w) (storage w) Hf) as [Hg _].
  destruct (createScan target scanType (clock w) (storage w)) as [scan st] eqn:Hc.
  assert (Es : scan = mkScan (currentScanId (storage w)) target scanType "pending"
                        (Some 0) None None (Some (clock w)) None)
    by (unfold createScan in Hc; congruence).
  cbn [fst snd] in Hg.
  exists scan, (mkWorld st (hub w) (clock w)).
  assert (Hid : s_id scan = currentScanId (storage w)) by (rewrite Es; reflexivity).
  assert (Ht : s_target scan = target) by (rewrite Es; reflexivity).
  assert (Hty : s_scanType scan = scanType) by (rewrite Es; reflexivity).
  rewrite Hid, Ht, Hty.
  split; [reflexivity|].
  split; [reflexivity|].
  split; [rewrite Es; reflexivity|].
  split; [rewrite Es; reflexivity|].
  split; [exact Hg|].
  split; [reflexivity|].
  intros Hv. cbn [run_background bg_scanId bg_target bg_scanType].
  exact (performScan_invalid_target svc (currentScanId (storage w)) target
           scanType (mkWorld st (hub w) (clock w)) scan Hg Hv).
Qed.

Lemma post_api_scans_boundary_witness :
  exists scan w1,
    post_api_scans (Scenario.request "exa mple") Scenario.freshWorld =
      (Json scan, w1, Some (mkBackground (s_id scan) "exa mple" "comprehensive")) /\
    s_status scan = "pending".
Proof.
  destruct (post_api_scans_boundary Scenario.services (Scenario.request "exa mple")
              Scenario.freshWorld) as [_ Hb].
  - constructor.
  - cbn [scanRequestSchema_parse Scenario.request body_target body_scanType
         String.length Nat.leb andb] in Hb.
    destruct Hb as (scan & w1 & E & _ & Hp & _).
    exists scan, w1. split; assumption.
Defined.

(** C1 as stated fails: a target that does not pass the grammar is
    accepted by the route, which creates and returns its record; and so is
    "256.1.1.1". *)
Lemma post_api_scans_accepts_malformed_target :
  Recon.validateTarget "exa mple" = false /\
  fst (fst (post_api_scans (Scenario.request "exa mple") Scenario.freshWorld)) =
    Json (mkScan 1 "exa mple" "comprehensive" "pending" (Some 0) None None
            (Some 1000) None) /\
  getScan 1 (storage (Scenario.submitted "exa mple")) =
    Some (mkScan 1 "exa mple" "comprehensive" "pending" (Some 0) None None
            (Some 1000) None) /\
  fst (fst (post_api_scans (Scenario.request "256.1.1.1") Scenario.freshWorld)) =
    Json (mkScan 1 "256.1.1.1" "comprehensive" "pending" (Some 0) None None
            (Some 1000) None).
Proof. vm_compute. repeat split; reflexivity. Qed.

(** The host-name pattern accepts every dotted string of digits, so
    "256.1.1.1" passes the validator although the address pattern turns it
    down. *)
Example validateTarget_examples :
  Regex.test Recon.ipRegex "256.1.1.1" = false /\
  Regex.test Recon.domainRegex "256.1.1.1" = true /\
  Recon.validateTarget "256.1.1.1" = true /\
  Recon.validateTarget "a.example.com" = true /\
  Recon.validateTarget "192.168.0.1" = true /\
  Recon.validateTarget "-a.example.com" = false /\
  Recon.validateTarget "a..b" = false /\
  Recon.validateTarget EmptyString = false.
Proof. vm_compute. repeat split; reflexivity. Qed.

End Sequencer.

(** ** The pattern matcher *)

(** The matcher used by [validateTarget] decides the language of the
    pattern. *)
Section Patterns.
Import Regex.

Lemma Matches_Cat_inv (r1 r2 : regex) (w : list ascii) :
  Matches (Cat r1 r2) w ->
  exists u v, w = u ++ v /\ Matches r1 u /\ Matches r2 v.
Proof. intros Hm. inversion Hm; subst. eauto. Qed.

Lemma Matches_Alt_inv (r1 r2 : regex) (w : list ascii) :
  Matches (Alt r1 r2) w -> Matches r1 w \/ Matches r2 w.
Proof. intros Hm. inversion Hm; subst; auto. Qed.

Lemma Matches_Upto_inv (n : nat) (r : regex) (w : list ascii) :
  Matches (Upto n r) w ->
  w = [] \/
  exists k u v, n = S k /\ w = u ++ v /\ Matches r u /\ Matches (Upto k r) v.
Proof. intros Hm. inversion Hm; subst; [left; reflexivity|right; eauto 8]. Qed.

Lemma Matches_cons_app (r1 r2 : regex) (c : ascii) (u v : list ascii) :
  Matches r1 (c :: u) -> Matches r2 v -> Matches (Cat r1 r2) (c :: u ++ v).
Proof. intros Hu Hv. change (c :: u ++ v) with ((c :: u) ++ v). constructor; assumption. Qed.

Lemma nullable_Matches (r : regex) : nullable r = true <-> Matches r [].
Proof.
  induction r as [| |p|r1 IH1 r2 IH2|r1 IH1 r2 IH2|r IH|n r IH]; cbn.
  - split; [discriminate|]. intros Hm. inversion Hm.
  - split; [constructor|reflexivity].
  - split; [discriminate|]. intros Hm. inversion Hm.
  - rewrite andb_true_iff, IH1, IH2. split.
    + intros [H1 H2]. change (@nil ascii) with (@nil ascii ++ []).
      constructor; assumption.
    + intros Hm. destruct (Matches_Cat_inv _ _ _ Hm) as (u & v & Huv & Hu & Hv).
      symmetry in Huv. apply app_eq_nil in Huv as [-> ->]. split; assumption.
  - rewrite orb_true_iff, IH1, IH2. split.
    + intros [H1|H2]; [apply MAltL|apply MAltR]; assumption.
    + apply Matches_Alt_inv.
  - split; [constructor|reflexivity].
  - split; [constructor|reflexivity].
Qed.

Lemma Matches_Upto_S (n : nat) (r : regex) (w : list ascii) :
  Matches (Upto n r) w -> Matches (Upto (S n) r) w.
Proof.
  revert w. induction n as [|n IH]; intros w Hm.
  - destruct (Matches_Upto_inv _ _ _ Hm) as [->|(k & u & v & E & _)];
      [constructor|discriminate].
  - destruct (Matches_Upto_inv _ _ _ Hm) as [->|(k & u & v & E & -> & Hu & Hv)];
      [constructor|].
    injection E as <-. constructor; [exact Hu|apply IH; exact Hv].
Qed.

(** A non-empty word of a repetition starts with a non-empty word of the
    repeated pattern. *)
Lemma Matches_Star_cons (r : regex) (c : ascii) (w : list ascii) :
  Matches (Star r) (c :: w) ->
  exists u v, w = u ++ v /\ Matches r (c :: u) /\ Matches (Star r) v.
Proof.
  intros Hm. remember (Star r) as s eqn:Es. remember (c :: w) as cw eqn:Ew.
  revert Es Ew.
  induction Hm as [| | | | | |r' u v Hu _ Hv IHv| |]; intros Es Ew;
    try discriminate.
  injection Es as ->.
  destruct u as [|a u]; cbn in Ew.
  - apply IHv; [reflexivity|exact Ew].
  - injection Ew as -> <-. exists u, v. repeat split; assumption.
Qed.

Lemma Matches_Upto_cons (n : nat) (r : regex) (c : ascii) (w : list ascii) :
  Matches (Upto (S n) r) (c :: w) ->
  exists u v, w = u ++ v /\ Matches r (c :: u) /\ Matches (Upto n r) v.
Proof.
  revert w. induction n as [|n IH]; intros w Hm;
    destruct (Matches_Upto_inv _ _ _ Hm) as [E|(k & u & v & E & Huv & Hu & Hv)];
    try discriminate; injection E as <-.
  - destruct (Matches_Upto_inv _ _ _ Hv) as [->|(k & ? & ? & E & _)];
      [|discriminate].
    rewrite app_nil_r in Huv. subst u.
    exists w, []. rewrite app_nil_r. repeat split; [exact Hu|constructor].
  - destruct u as [|a u]; cbn in Huv.
    + subst v. destruct (IH w Hv) as (u' & v' & -> & Hu' & Hv').
      exists u', v'. repeat split; [exact Hu'|apply Matches_Upto_S; exact Hv'].
    + injection Huv as -> ->. exists u, v. repeat split; assumption.
Qed.

Lemma deriv_Matches (c : ascii) (r : regex) (w : list ascii) :
  Matches (deriv c r) w <-> Matches r (c :: w).
Proof.
  revert w.
  induction r as [| |p|r1 IH1 r2 IH2|r1 IH1 r2 IH2|r IH|n r IH]; intros w; cbn.
  - split; intros Hm; inversion Hm.
  - split; intros Hm; inversion Hm.
  - destruct (p c) eqn:Hp; split; intros Hm; inversion Hm; subst.
    + constructor. exact Hp.
    + constructor.
    + congruence.
  - assert (Hcat : Matches (Cat (deriv c r1) r2) w ->
                   Matches (Cat r1 r2) (c :: w)).
    { intros Hm. destruct (Matches_Cat_inv _ _ _ Hm) as (u & v & -> & Hu & Hv).
      apply Matches_cons_app; [apply IH1; exact Hu|exact Hv]. }
    assert (Hinv : Matches (Cat r1 r2) (c :: w) ->
                   Matches (Cat (deriv c r1) r2) w \/
                   (Matches r1 [] /\ Matches r2 (c :: w))).
    { intros Hm. destruct (Matches_Cat_inv _ _ _ Hm) as (u & v & Huv & Hu & Hv).
      destruct u as [|a u]; cbn in Huv.
      - subst v. right. split; assumption.
      - injection Huv as -> ->. left. constructor; [apply IH1; exact Hu|exact Hv]. }
    destruct (nullable r1) eqn:Hn.
    + split.
      * intros Hm. destruct (Matches_Alt_inv _ _ _ Hm) as [Hl|Hr];
          [apply Hcat; exact Hl|].
        change (c :: w) with ([] ++ c :: w).
        constructor; [apply nullable_Matches; exact Hn|apply IH2; exact Hr].
      * intros Hm. destruct (Hinv Hm) as [Hl|[_ Hr]];
          [apply MAltL; exact Hl|apply MAltR; apply IH2; exact Hr].
    + split; [exact Hcat|].
      intros Hm. destruct (Hinv Hm) as [Hl|[Hr _]]; [exact Hl|].
      apply nullable_Matches in Hr. congruence.
  - split; intros Hm; destruct (Matches_Alt_inv _ _ _ Hm) as [Hl|Hr];
      [apply MAltL, IH1|apply MAltR, IH2|apply MAltL, IH1|apply MAltR, IH2];
      assumption.
  - split.
    + intros Hm. destruct (Matches_Cat_inv _ _ _ Hm) as (u & v & -> & Hu & Hv).
      change (c :: u ++ v) with ((c :: u) ++ v).
      constructor; [apply IH; exact Hu|exact Hv].
    + intros Hm. destruct (Matches_Star_cons r c w Hm) as (u & v & -> & Hu & Hv).
      constructor; [apply IH; exact Hu|exact Hv].
  - destruct n as [|n].
    + split; intros Hm; [inversion Hm|].
      destruct (Matches_Upto_inv _ _ _ Hm) as [E|(k & ? & ? & E & _)]; discriminate.
    + split.
      * intros Hm. destruct (Matches_Cat_inv _ _ _ Hm) as (u & v & -> & Hu & Hv).
        change (c :: u ++ v) with ((c :: u) ++ v).
        constructor; [apply IH; exact Hu|exact Hv].
      * intros Hm. destruct (Matches_Upto_cons n r c w Hm) as (u & v & -> & Hu & Hv).
        constructor; [apply IH; exact Hu|exact Hv].
Qed.

Lemma is_void_Matches (r : regex) (w : list ascii) :
  is_void r = true -> ~ Matches r w.
Proof. destruct r; try discriminate. intros _ Hm. inversion Hm. Qed.

Lemma simp_Matches (r : regex) (w : list ascii) :
  Matches (simp r) w <-> Matches r w.
Proof.
  revert w.
  induction r as [| |p|r1 IH1 r2 IH2|r1 IH1 r2 IH2|r IH|n r IH]; intros w; cbn;
    try reflexivity.
  - destruct (is_void (simp r1)) eqn:V1; [|destruct (is_void (simp r2)) eqn:V2]; cbn.
    + split; intros Hm; [inversion Hm|].
      destruct (Matches_Cat_inv _ _ _ Hm) as (u & v & -> & Hu & Hv).
      apply IH1 in Hu. exfalso. exact (is_void_Matches _ _ V1 Hu).
    + split; intros Hm; [inversion Hm|].
      destruct (Matches_Cat_inv _ _ _ Hm) as (u & v & -> & Hu & Hv).
      apply IH2 in Hv. exfalso. exact (is_void_Matches _ _ V2 Hv).
    + split; intros Hm;
        destruct (Matches_Cat_inv _ _ _ Hm) as (u & v & -> & Hu & Hv);
        constructor; try (apply IH1; exact Hu); apply IH2; exact Hv.
  - destruct (is_void (simp r1)) eqn:V1; [|destruct (is_void (simp r2)) eqn:V2].
    + split.
      * intros Hm. apply MAltR, IH2, Hm.
      * intros Hm. destruct (Matches_Alt_inv _ _ _ Hm) as [Hl|Hr];
          [|apply IH2; exact Hr].
        exfalso. eapply is_void_Matches; [exact V1|apply IH1; exact Hl].
    + split.
      * intros Hm. apply MAltL, IH1, Hm.
      * intros Hm. destruct (Matches_Alt_inv _ _ _ Hm) as [Hl|Hr];
          [apply IH1; exact Hl|].
        exfalso. eapply is_void_Matches; [exact V2|apply IH2; exact Hr].
    + split; intros Hm; destruct (Matches_Alt_inv _ _ _ Hm) as [Hl|Hr];
        [apply MAltL, IH1|apply MAltR, IH2|apply MAltL, IH1|apply MAltR, IH2];
        assumption.
Qed.

Lemma matches_Matches (r : regex) (w : list ascii) :
  matches r w = true <-> Matches r w.
Proof.
  revert r. induction w as [|c w IH]; intros r; cbn.
  - apply nullable_Matches.
  - rewrite IH, simp_Matches. apply deriv_Matches.
Qed.

(** [validateTarget] accepts exactly the words of the two patterns. *)
Lemma validateTarget_Matches (target : string) :
  Recon.validateTarget target = true <->
  Matches Recon.domainRegex (list_ascii_of_string target) \/
  Matches Recon.ipRegex (list_ascii_of_string target).
Proof.
  unfold Recon.validateTarget, test.
  rewrite orb_true_iff, !matches_Matches. reflexivity.
Qed.

End Patterns.

(** ** From the observer to the sockets *)

Section Delivery.
Import Schema Storage Routes SpecWording.

(** With the server's own callback the run writes the same storage as
    under the observer, and the registry ends as if the observed events
    had been published to it one after the other. *)
Lemma performScan_publishes_observed_events
    (svc : Services) (id : nat) (target scanType : string)
    (w : World (gmap string WebSocket)) (wo : World (list Observation)) :
  storage wo = storage w -> clock wo = clock w ->
  storage (performScan svc broadcast_clients id target scanType w) =
    storage (performScan svc broadcast_observe id target scanType wo) /\
  hub (performScan svc broadcast_clients id target scanType w) =
    fold_left (fun clients o => broadcastUpdate (obs_scanId o) (obs_update o) clients)
      (drop (length (hub wo))
         (hub (performScan svc broadcast_observe id target scanType wo)))
      (hub w).
Proof.
  intros Es Ec. unfold performScan, performScan_try.
  destruct (Recon.performReconnaissance target (probes svc target)) as [rr|e];
    [destruct (OpenAI.analyzeVulnerabilities (inference svc target rr)) as [an|e];
     [destruct (OpenAI.vulnerabilities an) as [vs|]|]|];
    cbn [hub storage clock with_storage broadcast_observe broadcast_clients fst snd];
    rewrite ?Es, ?Ec, <- ?app_assoc, drop_app_length;
    cbn [app fold_left obs_scanId obs_update]; split; reflexivity.
Qed.

(** A socket that is open receives every event of the run, in order. *)
Lemma open_socket_receives_observed_events
    (events : list Observation) (clients : gmap string WebSocket)
    (clientId : string) (ws : WebSocket) :
  clients !! clientId = Some ws -> is_open ws = true ->
  fold_left (fun clients o => broadcastUpdate (obs_scanId o) (obs_update o) clients)
    events clients !! clientId =
  Some (mkWebSocket (readyState ws)
          (sent ws ++
           map (fun o => mkMessage "scan_update" (obs_scanId o) (obs_update o)) events)).
Proof.
  revert clients ws. induction events as [|o events IH]; intros clients ws Hc Ho; cbn.
  - rewrite app_nil_r, Hc. destruct ws; reflexivity.
  - rewrite (IH _ (send (mkMessage "scan_update" (obs_scanId o) (obs_update o)) ws)).
    + cbn. rewrite <- app_assoc. reflexivity.
    + rewrite broadcastUpdate_lookup, Hc. cbn. rewrite Ho. reflexivity.
    + exact Ho.
Qed.

End Delivery.

(** ** The address pattern never decides *)

(** Every word of the address pattern is a word of the host-name pattern,
    whose labels may be all digits; [validateTarget] is the host-name
    test. *)
Section AddressPattern.
Import Regex Recon.

Lemma Matches_Class_inv (p : ascii -> bool) (w : list ascii) :
  Matches (Class p) w -> exists c, w = [c] /\ p c = true.
Proof. intros Hm. inversion Hm; subst. eauto. Qed.

Lemma Matches_Eps_inv (w : list ascii) : Matches Eps w -> w = [].
Proof. intros Hm. inversion Hm. reflexivity. Qed.

Lemma Matches_Opt_Class_inv (p : ascii -> bool) (w : list ascii) :
  Matches (Opt (Class p)) w -> w = [] \/ exists c, w = [c] /\ p c = true.
Proof.
  intros Hm. destruct (Matches_Alt_inv _ _ _ Hm) as [Hc|He].
  - right. apply Matches_Class_inv. exact Hc.
  - left. apply Matches_Eps_inv. exact He.
Qed.

Lemma in_range_digit (lo hi : N) (c : ascii) :
  (48 <= lo)%N -> (hi <= 57)%N -> in_range lo hi c = true -> digit c = true.
Proof.
  unfold digit, in_range. intros Hlo Hhi.
  rewrite !andb_true_iff, !N.leb_le. lia.
Qed.

Lemma digit_alnum (c : ascii) : digit c = true -> alnum c = true.
Proof. unfold alnum. intros ->. apply orb_true_r. Qed.

Lemma digit_alnum_dash (c : ascii) : digit c = true -> alnum_dash c = true.
Proof. unfold alnum_dash. intros Hd. rewrite (digit_alnum c Hd). reflexivity. Qed.

Lemma label_one (a : ascii) : digit a = true -> Matches label [a].
Proof.
  intros Ha. change [a] with ([a] ++ []).
  constructor; [constructor; apply digit_alnum; exact Ha|].
  apply MAltR. constructor.
Qed.

Lemma label_two (a b : ascii) :
  digit a = true -> digit b = true -> Matches label [a; b].
Proof.
  intros Ha Hb. change [a; b] with ([a] ++ ([] ++ [b])).
  constructor; [constructor; apply digit_alnum; exact Ha|].
  apply MAltL. constructor; [constructor|constructor; apply digit_alnum; exact Hb].
Qed.

Lemma label_three (a b c : ascii) :
  digit a = true -> digit b = true -> digit c = true -> Matches label [a; b; c].
Proof.
  intros Ha Hb Hc. change [a; b; c] with ([a] ++ (([b] ++ []) ++ [c])).
  constructor; [constructor; apply digit_alnum; exact Ha|].
  apply MAltL. constructor; [|constructor; apply digit_alnum; exact Hc].
  constructor; [constructor; apply digit_alnum_dash; exact Hb|constructor].
Qed.

Lemma octet_label (u : list ascii) : Matches octet u -> Matches label u.
Proof.
  unfold octet. intros Hm.
  assert (D2 : digit "2" = true) by reflexivity.
  assert (D5 : digit "5" = true) by reflexivity.
  destruct (Matches_Alt_inv _ _ _ Hm) as [H1|H23].
  - destruct (Matches_Cat_inv _ _ _ H1) as (u1 & v1 & -> & Ha & Hbc).
    destruct (Matches_Cat_inv _ _ _ Hbc) as (u2 & v2 & -> & Hb & Hc).
    destruct (Matches_Class_inv _ _ Ha) as (a & -> & Pa).
    destruct (Matches_Class_inv _ _ Hb) as (b & -> & Pb).
    destruct (Matches_Class_inv _ _ Hc) as (c & -> & Pc).
    apply Ascii.eqb_eq in Pa, Pb. subst a b.
    apply label_three; [reflexivity|reflexivity|].
    apply (in_range_digit 48 53); [lia|lia|exact Pc].
  - destruct (Matches_Alt_inv _ _ _ H23) as [H2|H3].
    + destruct (Matches_Cat_inv _ _ _ H2) as (u1 & v1 & -> & Ha & Hbc).
      destruct (Matches_Cat_inv _ _ _ Hbc) as (u2 & v2 & -> & Hb & Hc).
      destruct (Matches_Class_inv _ _ Ha) as (a & -> & Pa).
      destruct (Matches_Class_inv _ _ Hb) as (b & -> & Pb).
      destruct (Matches_Class_inv _ _ Hc) as (c & -> & Pc).
      apply Ascii.eqb_eq in Pa. subst a.
      apply label_three; [reflexivity| |exact Pc].
      apply (in_range_digit 48 52); [lia|lia|exact Pb].
    + destruct (Matches_Cat_inv _ _ _ H3) as (u1 & v1 & -> & Ha & Hbc).
      destruct (Matches_Cat_inv _ _ _ Hbc) as (u2 & v2 & -> & Hb & Hc).
      destruct (Matches_Class_inv _ _ Hb) as (b & -> & Pb).
      destruct (Matches_Opt_Class_inv _ _ Ha) as [->|(a & -> & Pa)];
        destruct (Matches_Opt_Class_inv _ _ Hc) as [->|(c & -> & Pc)]; cbn.
      * apply label_one; exact Pb.
      * apply label_two; assumption.
      * apply label_two; [|exact Pb].
        apply (in_range_digit 48 49); [lia|lia|exact Pa].
      * apply label_three; [|exact Pb|exact Pc].
        apply (in_range_digit 48 49); [lia|lia|exact Pa].
Qed.

Lemma ipRegex_domainRegex (w : list ascii) :
  Matches ipRegex w -> Matches domainRegex w.
Proof.
  unfold ipRegex, domainRegex. cbn [Times]. intros Hm.
  destruct (Matches_Cat_inv _ _ _ Hm) as (p & o4 & -> & Hp & H4).
  destruct (Matches_Cat_inv _ _ _ Hp) as (p1 & q1 & -> & Hp1 & Hq1).
  destruct (Matches_Cat_inv _ _ _ Hq1) as (p2 & q2 & -> & Hp2 & Hq2).
  destruct (Matches_Cat_inv _ _ _ Hq2) as (p3 & q3 & -> & Hp3 & Hq3).
  apply Matches_Eps_inv in Hq3. subst q3.
  destruct (Matches_Cat_inv _ _ _ Hp1) as (o1 & d1 & -> & H1 & Hd1).
  destruct (Matches_Cat_inv _ _ _ Hp2) as (o2 & d2 & -> & H2 & Hd2).
  destruct (Matches_Cat_inv _ _ _ Hp3) as (o3 & d3 & -> & H3 & Hd3).
  replace (((o1 ++ d1) ++ (o2 ++ d2) ++ (o3 ++ d3) ++ []) ++ o4)
    with (o1 ++ ((d1 ++ o2) ++ ((d2 ++ o3) ++ ((d3 ++ o4) ++ []))))
    by (rewrite ?app_nil_r, <- ?app_assoc; reflexivity).
  constructor; [apply octet_label; exact H1|].
  repeat (constructor; [constructor; [assumption|apply octet_label; assumption]|]).
  constructor.
Qed.

Lemma validateTarget_is_domainRegex (target : string) :
  validateTarget target = test domainRegex target.
Proof.
  unfold validateTarget.
  destruct (test domainRegex target) eqn:Ed; [reflexivity|].
  destruct (test ipRegex target) eqn:Ei; [|reflexivity].
  unfold test in Ed, Ei.
  apply matches_Matches, ipRegex_domainRegex, matches_Matches in Ei. congruence.
Qed.

End AddressPattern.

(** ** What a validated target looks like *)

Section ValidatedTargets.
Import Regex Recon Views.

Lemma all_chars_Forall (p : ascii -> bool) (s : string) :
  all_chars p s = true <-> Forall (fun c => p c = true) (list_ascii_of_string s).
Proof.
  induction s as [|c r IH]; cbn.
  - split; [constructor|reflexivity].
  - rewrite andb_true_iff, IH. split.
    + intros [Hc Hr]. constructor; assumption.
    + intros Hf. inversion Hf; subst. split; assumption.
Qed.

Lemma first_char_head (s : string) : first_char s = head (list_ascii_of_string s).
Proof. destruct s; reflexivity. Qed.

Lemma last_char_last (s : string) : last_char s = last (list_ascii_of_string s).
Proof.
  induction s as [|c r IH]; [reflexivity|].
  destruct r as [|d r]; [reflexivity|].
  change (last_char (String c (String d r))) with (last_char (String d r)).
  rewrite IH. reflexivity.
Qed.

Lemma list_ascii_of_string_app (a b : string) :
  list_ascii_of_string (String.append a b) =
  list_ascii_of_string a ++ list_ascii_of_string b.
Proof.
  induction a as [|c a IH]; [reflexivity|].
  change (list_ascii_of_string (String.append (String c a) b))
    with (c :: list_ascii_of_string (String.append a b)).
  rewrite IH. reflexivity.
Qed.

Lemma Matches_Upto_Class (n : nat) (p : ascii -> bool) (w : list ascii) :
  Matches (Upto n (Class p)) w -> Forall (fun c => p c = true) w.
Proof.
  revert w. induction n as [|n IH]; intros w Hm;
    destruct (Matches_Upto_inv _ _ _ Hm) as [->|(k & u & v & E & -> & Hu & Hv)];
    try constructor; try discriminate.
  injection E as <-.
  destruct (Matches_Class_inv _ _ Hu) as (c & -> & Hc).
  constructor; [exact Hc|apply IH; exact Hv].
Qed.

Lemma alnum_hostChar (c : ascii) : alnum c = true -> hostChar c = true.
Proof. unfold hostChar, alnum_dash. intros ->. reflexivity. Qed.

Lemma alnum_dash_hostChar (c : ascii) : alnum_dash c = true -> hostChar c = true.
Proof. unfold hostChar. intros ->. reflexivity. Qed.

(** A label is not empty, starts and ends with a letter or a digit and
    has letters, digits and hyphens in between. *)
Lemma Matches_label_shape (w : list ascii) :
  Matches label w ->
  Forall (fun c => hostChar c = true) w /\
  (exists a, head w = Some a /\ alnum a = true) /\
  (exists z, last w = Some z /\ alnum z = true).
Proof.
  unfold label. intros Hm.
  destruct (Matches_Cat_inv _ _ _ Hm) as (u & v & -> & Hu & Hv).
  destruct (Matches_Class_inv _ _ Hu) as (a & -> & Ha).
  destruct (Matches_Alt_inv _ _ _ Hv) as [Hl|He].
  - destruct (Matches_Cat_inv _ _ _ Hl) as (x & y & -> & Hx & Hy).
    destruct (Matches_Class_inv _ _ Hy) as (z & -> & Hz).
    apply Matches_Upto_Class in Hx.
    split; [|split].
    + constructor; [apply alnum_hostChar; exact Ha|].
      apply Forall_app. split.
      * eapply Forall_impl; [exact Hx|]. intros c. apply alnum_dash_hostChar.
      * constructor; [apply alnum_hostChar; exact Hz|constructor].
    + exists a. split; [reflexivity|exact Ha].
    + exists z. split; [|exact Hz].
      change ([a] ++ x ++ [z]) with (a :: x ++ [z]).
      rewrite app_comm_cons, last_snoc. reflexivity.
  - apply Matches_Eps_inv in He. subst v.
    split; [|split].
    + constructor; [apply alnum_hostChar; exact Ha|constructor].
    + exists a. split; [reflexivity|exact Ha].
    + exists a. split; [reflexivity|exact Ha].
Qed.

Lemma Matches_labels_shape (v : list ascii) :
  Matches (Star (Cat (lit ".") label)) v ->
  Forall (fun c => hostChar c = true) v /\
  (v = [] \/ exists z, last v = Some z /\ alnum z = true).
Proof.
  intros Hm. remember (Star (Cat (lit ".") label)) as s eqn:Es.
  induction Hm as [| | | | | |r u v Hu _ Hv IHv| |]; try discriminate.
  - split; [constructor|left; reflexivity].
  - injection Es as ->.
    destruct (IHv eq_refl) as [Fv Lv].
    destruct (Matches_Cat_inv _ _ _ Hu) as (d & l & -> & Hd & Hl).
    destruct (Matches_Class_inv _ _ Hd) as (c & -> & Hc).
    destruct (Matches_label_shape l Hl) as (Fl & _ & (z & Lz & Hz)).
    split.
    + apply Forall_app. split; [|exact Fv].
      constructor; [|exact Fl].
      unfold hostChar. apply Ascii.eqb_eq in Hc. subst c. apply orb_true_r.
    + right. rewrite last_app.
      destruct Lv as [->|(z' & Lz' & Hz')].
      * cbn [last]. exists z. split; [|exact Hz].
        change ([c] ++ l) with (c :: l).
        destruct l as [|b l]; [discriminate|].
        rewrite last_cons. rewrite Lz. reflexivity.
      * rewrite Lz'. exists z'. split; [reflexivity|exact Hz'].
Qed.

Lemma Matches_domainRegex_shape (w : list ascii) :
  Matches domainRegex w ->
  Forall (fun c => hostChar c = true) w /\
  (exists a, head w = Some a /\ alnum a = true) /\
  (exists z, last w = Some z /\ alnum z = true).
Proof.
  unfold domainRegex. intros Hm.
  destruct (Matches_Cat_inv _ _ _ Hm) as (u & v & -> & Hu & Hv).
  destruct (Matches_label_shape u Hu) as (Fu & (a & Ha & Pa) & (z & Lz & Pz)).
  destruct (Matches_labels_shape v Hv) as (Fv & Lv).
  split; [apply Forall_app; split; assumption|]. split.
  - exists a. split; [|exact Pa].
    destruct u as [|b u]; [discriminate|]. exact Ha.
  - rewrite last_app. destruct Lv as [->|(z' & Lz' & Pz')].
    + cbn [last]. exists z. split; assumption.
    + rewrite Lz'. exists z'. split; [reflexivity|exact Pz'].
Qed.

Lemma validateTarget_domain (target : string) :
  validateTarget target = true ->
  Matches domainRegex (list_ascii_of_string target).
Proof.
  intros Hv. apply validateTarget_Matches in Hv as [Hd|Hi];
    [exact Hd|apply ipRegex_domainRegex; exact Hi].
Qed.

(** A target that passes [validateTarget] is not empty, consists of
    letters, digits, hyphens and dots only, and begins and ends with a
    letter or a digit; in particular it holds no white space and no
    character that a shell reads as anything but itself. *)
Theorem validateTarget_characters (target : string) :
  validateTarget target = true ->
  all_chars hostChar target = true /\
  (exists a, first_char target = Some a /\ alnum a = true) /\
  (exists z, last_char target = Some z /\ alnum z = true).
Proof.
  intros Hv. apply validateTarget_domain, Matches_domainRegex_shape in Hv.
  rewrite all_chars_Forall, first_char_head, last_char_last. exact Hv.
Qed.

Lemma validateTarget_characters_witness :
  all_chars hostChar "a.example.com" = true.
Proof.
  apply (validateTarget_characters "a.example.com"). vm_compute. reflexivity.
Defined.

End ValidatedTargets.

(** ** The probes *)

Section ProbeFacts.
Import Regex Recon Probes Views.

(** *** Ports *)

Lemma collectPort_fold (check : nat -> Settled bool) (l : list nat) (k : nat)
    (acc : list nat) :
  (forall i p, l !! i = Some p -> commonPorts !! (k + i) = Some p) ->
  fold_left collectPort (imap (fun i => pair (k + i)) (map check l)) acc =
  acc ++ List.filter (fun p => answeredOpen (check p)) l.
Proof.
  revert k acc. induction l as [|p l IH]; intros k acc Hl; cbn.
  - rewrite app_nil_r. reflexivity.
  - rewrite (imap_ext _ (fun i => pair (S k + i)))
      by (intros; cbn; f_equal; lia).
    rewrite IH by (intros i q Hq; rewrite <- (Hl (S i) q Hq); f_equal; lia).
    unfold collectPort at 1. cbn [fst snd].
    rewrite (Hl 0 p eq_refl).
    destruct (check p) as [[|]|]; cbn [answeredOpen];
      rewrite <- ?app_assoc; reflexivity.
Qed.

Lemma NoDup_commonPorts : List.NoDup commonPorts.
Proof.
  apply (NoDup_ListNoDup commonPorts).
  apply (bool_decide_unpack _). vm_compute. exact I.
Qed.

(** [scanPorts] never rejects.  Reading each port back by the index of
    its result gives exactly the candidate ports whose check was fulfilled
    with [true], in candidate order and without repetition; a check that
    was rejected counts as closed. *)
Theorem scanPorts_open_ports (check : nat -> Settled bool) :
  exists ports,
    scanPorts check = Fulfilled ports /\
    ports = List.filter (fun p => answeredOpen (check p)) commonPorts /\
    List.NoDup ports /\
    (forall p, In p ports <-> In p commonPorts /\ check p = Fulfilled true) /\
    length ports <= length commonPorts.
Proof.
  unfold scanPorts.
  pose proof (collectPort_fold check commonPorts 0 [] (fun i p H => H)) as E.
  cbn [app] in E. rewrite (imap_ext (fun i => pair (0 + i)) pair) in E
    by reflexivity.
  eexists. split; [reflexivity|]. rewrite E.
  split; [reflexivity|]. split; [|split].
  - apply List.NoDup_filter, NoDup_commonPorts.
  - intros p. rewrite filter_In. split; intros [Hin Hc]; split; try exact Hin.
    + destruct (check p) as [[|]|]; try discriminate. reflexivity.
    + rewrite Hc. reflexivity.
  - apply filter_length_le.
Qed.

(** *** Subdomains *)

Lemma enumerate_fold (resolveDNS : string -> Settled unit) (target : string)
    (labels : list string) (acc : list string) :
  fold_left
    (fun subdomains sub =>
       match resolveDNS (subdomainOf sub target) with
       | Fulfilled _ => subdomains ++ [subdomainOf sub target]
       | Rejected _ => subdomains
       end) labels acc =
  acc ++ List.filter (fun host => fulfilled (resolveDNS host))
           (map (fun sub => subdomainOf sub target) labels).
Proof.
  revert acc. induction labels as [|sub labels IH]; intros acc; cbn.
  - rewrite app_nil_r. reflexivity.
  - rewrite IH. destruct (resolveDNS (subdomainOf sub target)); cbn [fulfilled];
      rewrite <- ?app_assoc; reflexivity.
Qed.

Lemma commonSubdomains_labels :
  Forall (fun sub => Matches label (list_ascii_of_string sub)) commonSubdomains.
Proof.
  unfold commonSubdomains.
  repeat (constructor; [apply matches_Matches; vm_compute; reflexivity|]).
  constructor.
Qed.

(** A label put in front of a host name gives a host name. *)
Lemma subdomainOf_valid (sub target : string) :
  Matches label (list_ascii_of_string sub) ->
  validateTarget target = true ->
  validateTarget (subdomainOf sub target) = true.
Proof.
  intros Hl Hv. apply validateTarget_domain in Hv.
  apply validateTarget_Matches. left.
  unfold subdomainOf. rewrite !list_ascii_of_string_app.
  unfold domainRegex in *.
  destruct (Matches_Cat_inv _ _ _ Hv) as (u & v & -> & Hu & Hs).
  constructor; [exact Hl|].
  change (list_ascii_of_string "." ++ u ++ v) with (("."%char :: u) ++ v).
  constructor; [|exact Hs].
  change ("."%char :: u) with (["."%char] ++ u).
  constructor; [constructor; reflexivity|exact Hu].
Qed.

(** [enumerateSubdomains] never rejects.  For a validated target it
    returns, in candidate order, the candidate names [label.target] whose
    lookup succeeded, and each of them passes [validateTarget] itself. *)
Theorem enumerateSubdomains_valid_hosts
    (resolveDNS : string -> Settled unit) (target : string) :
  validateTarget target = true ->
  exists hosts,
    enumerateSubdomains resolveDNS target = Fulfilled hosts /\
    hosts = List.filter (fun host => fulfilled (resolveDNS host))
              (map (fun sub => subdomainOf sub target) commonSubdomains) /\
    Forall (fun host => validateTarget host = true) hosts /\
    length hosts <= length commonSubdomains.
Proof.
  intros Hv. unfold enumerateSubdomains. rewrite enumerate_fold. cbn [app].
  eexists. split; [reflexivity|]. split; [reflexivity|]. split.
  - apply List.Forall_forall. intros host Hin. apply filter_In in Hin as [Hin _].
    apply in_map_iff in Hin as (sub & <- & Hsub).
    apply subdomainOf_valid; [|exact Hv].
    pose proof commonSubdomains_labels as Hl.
    rewrite List.Forall_forall in Hl. apply Hl. exact Hsub.
  - etransitivity; [apply filter_length_le|]. rewrite length_map. reflexivity.
Qed.

Lemma enumerateSubdomains_valid_hosts_witness :
  exists hosts,
    enumerateSubdomains
      (fun host => if String.eqb host "api.a.example.com" then Fulfilled tt
                   else Rejected "ENOTFOUND") "a.example.com" = Fulfilled hosts /\
    Forall (fun host => validateTarget host = true) hosts.
Proof.
  destruct (enumerateSubdomains_valid_hosts
              (fun host => if String.eqb host "api.a.example.com" then Fulfilled tt
                           else Rejected "ENOTFOUND") "a.example.com")
    as (hosts & E & _ & F & _).
  - vm_compute. reflexivity.
  - exists hosts. split; assumption.
Defined.

(** *** DNS records *)

Lemma getDNSRecords_untilRejected (dns : DnsAnswers) :
  getDNSRecords dns = Fulfilled (untilRejected dns dnsKinds).
Proof.
  unfold getDNSRecords, dnsKinds. cbn [untilRejected app].
  destruct (getDNSRecord dns "A"); [|reflexivity].
  destruct (getDNSRecord dns "AAAA"); [|rewrite app_nil_r; reflexivity].
  destruct (getDNSRecord dns "MX"); [|rewrite !app_nil_r; reflexivity].
  destruct (getDNSRecord dns "TXT");
    [|rewrite !app_nil_r, <- ?app_assoc; reflexivity].
  destruct (getDNSRecord dns "NS");
    rewrite ?app_nil_r, <- ?app_assoc; reflexivity.
Qed.

(** [getDNSRecords] never rejects, but the five lookups share one [try]
    block: a lookup that fails ends the collection.  When the address
    lookup succeeds and the IPv6 lookup fails, the result holds the A
    records only, whatever the MX, TXT and NS lookups would have
    answered. *)
Theorem getDNSRecords_stops_at_first_failure
    (dns : DnsAnswers) (addresses : list string) (reason : string) :
  resolve4 dns = Fulfilled addresses ->
  resolve6 dns = Rejected reason ->
  getDNSRecords dns = Fulfilled (map (mkDnsRecord "A") addresses) /\
  getDNSRecords dns =
    getDNSRecords (mkDnsAnswers (resolve4 dns) (resolve6 dns)
                     (Rejected "unused") (Rejected "unused") (Rejected "unused")).
Proof.
  intros H4 H6. unfold getDNSRecords, getDNSRecord. cbn.
  rewrite H4, H6. split; reflexivity.
Qed.

Lemma getDNSRecords_stops_at_first_failure_witness :
  getDNSRecords
    (mkDnsAnswers (Fulfilled ["192.0.2.10"]) (Rejected "queryAaaa ENODATA")
       (Fulfilled [(10, "mail.a.example.com")]) (Fulfilled [["v=spf1 -all"]])
       (Fulfilled ["ns1.a.example.com"]))
  = Fulfilled [mkDnsRecord "A" "192.0.2.10"].
Proof.
  refine (proj1 (getDNSRecords_stops_at_first_failure
            (mkDnsAnswers (Fulfilled ["192.0.2.10"]) (Rejected "queryAaaa ENODATA")
               (Fulfilled [(10, "mail.a.example.com")]) (Fulfilled [["v=spf1 -all"]])
               (Fulfilled ["ns1.a.example.com"]))
            ["192.0.2.10"] "queryAaaa ENODATA" _ _)); reflexivity.
Defined.

(** *** The five probes together *)

Lemma scanPorts_ports_in (check : nat -> Settled bool) :
  exists ports,
    scanPorts check = Fulfilled ports /\
    forall p, In p ports -> In p commonPorts.
Proof.
  unfold scanPorts.
  pose proof (collectPort_fold check commonPorts 0 [] (fun i p H => H)) as E.
  cbn [app] in E. rewrite (imap_ext (fun i => pair (0 + i)) pair) in E
    by reflexivity.
  eexists. split; [reflexivity|]. rewrite E.
  intros p Hin. apply filter_In in Hin as [Hin _]. exact Hin.
Qed.

Lemma enumerate_hosts_valid (resolveDNS : string -> Settled unit) (target : string) :
  validateTarget target = true ->
  exists hosts,
    enumerateSubdomains resolveDNS target = Fulfilled hosts /\
    Forall (fun host => validateTarget host = true) hosts.
Proof.
  intros Hv. unfold enumerateSubdomains. rewrite enumerate_fold. cbn [app].
  eexists. split; [reflexivity|].
  apply List.Forall_forall. intros host Hin. apply filter_In in Hin as [Hin _].
  apply in_map_iff in Hin as (sub & <- & Hsub).
  apply subdomainOf_valid; [|exact Hv].
  pose proof commonSubdomains_labels as Hl.
  rewrite List.Forall_forall in Hl. apply Hl. exact Hsub.
Qed.

Lemma getWhoisData_fulfilled (exec : Settled string) :
  exists wd, getWhoisData exec = Fulfilled wd.
Proof. destruct exec; eexists; reflexivity. Qed.

Lemma getWebInfo_fulfilled (https http : Settled HttpResponse) :
  fulfilled (getWebInfo https http) = fulfilled https || fulfilled http.
Proof. destruct https, http; reflexivity. Qed.

Lemma getWebInfo_technologies (https http : Settled HttpResponse) (info : WebInfo) :
  getWebInfo https http = Fulfilled info ->
  wi_technologies info = detectTechnologies (wi_headers info).
Proof.
  unfold getWebInfo. destruct https as [res|e]; [|destruct http as [res|e']];
    intros E; try discriminate; injection E as <-; reflexivity.
Qed.

Lemma detectTechnologies_length (h : gmap string string) :
  length (detectTechnologies h) <= 3.
Proof.
  destruct (detectServer_shape h) as (Ls & _).
  destruct (detectFramework_shape h) as (Lf & _).
  destruct (detectCms_shape h) as (Lc & _).
  unfold detectTechnologies. cbn [app]. rewrite !length_app. lia.
Qed.

(** With the probes as they are written, only the web fingerprint can be
    rejected: for a validated target the aggregate always carries a whois
    value, its open ports are candidate ports, its subdomains are valid
    host names, it names at most three technologies, and it has no status
    code exactly when both the HTTPS and the HTTP request failed, in which
    case headers and technologies are empty. *)
Theorem launchProbes_aggregate (net : Network) (target : string) :
  validateTarget target = true ->
  exists r,
    performReconnaissance target (launchProbes net target) = Ok r /\
    whoisData r <> None /\
    (forall p, In p (openPorts r) -> In p commonPorts) /\
    Forall (fun host => validateTarget host = true) (subdomains r) /\
    length (technologies r) <= 3 /\
    (statusCode r = None <->
     fulfilled (net_https net target) = false /\
     fulfilled (net_http net target) = false) /\
    (statusCode r = None -> headers r = ∅ /\ technologies r = []).
Proof.
  intros Hv.
  destruct (scanPorts_ports_in (fun port => checkPort (net_socket net target port)))
    as (ports & Ep & Hp).
  destruct (enumerate_hosts_valid (net_lookup net) target Hv) as (hosts & Eh & Hh).
  destruct (getWhoisData_fulfilled (net_exec net (String.append "whois " target)))
    as (wd & Ewd).
  pose proof (getWebInfo_fulfilled (net_https net target) (net_http net target))
    as Hweb.
  unfold performReconnaissance, launchProbes. rewrite Hv. cbn [negb].
  eexists. split; [reflexivity|].
  cbn [po_subdomains po_openPorts po_dnsRecords po_webInfo po_whoisData].
  rewrite Ep, Eh, Ewd, getDNSRecords_untilRejected.
  destruct (getWebInfo (net_https net target) (net_http net target))
    as [info|e] eqn:Ew;
    cbn [when_fulfilled set_subdomains set_openPorts set_dnsRecords set_webInfo
         set_whoisData initialResults whoisData openPorts subdomains technologies
         statusCode headers fulfilled] in *.
  - rewrite (getWebInfo_technologies _ _ _ Ew).
    split; [discriminate|]. split; [exact Hp|]. split; [exact Hh|].
    split; [apply detectTechnologies_length|]. split.
    + split; [discriminate|]. intros [H1 H2]. rewrite H1, H2 in Hweb. discriminate.
    + discriminate.
  - split; [discriminate|]. split; [exact Hp|]. split; [exact Hh|].
    split; [cbn; lia|]. split.
    + split; [|reflexivity]. intros _. symmetry in Hweb.
      apply orb_false_iff in Hweb. exact Hweb.
    + intros _. split; reflexivity.
Qed.

Lemma launchProbes_aggregate_witness :
  let net :=
    mkNetwork (fun _ => Rejected "ENOTFOUND") (fun _ _ => Timeout)
      (fun _ => mkDnsAnswers (Rejected "ENODATA") (Rejected "ENODATA")
                  (Rejected "ENODATA") (Rejected "ENODATA") (Rejected "ENODATA"))
      (fun _ => Rejected "ECONNREFUSED") (fun _ => Rejected "ECONNREFUSED")
      (fun _ => Rejected "spawn whois ENOENT") in
  exists r,
    performReconnaissance "a.example.com" (launchProbes net "a.example.com") = Ok r /\
    whoisData r <> None.
Proof.
  intros net.
  destruct (launchProbes_aggregate net "a.example.com") as (r & E & Hw & _).
  - vm_compute. reflexivity.
  - exists r. split; assumption.
Defined.

End ProbeFacts.

(** ** Invariants of the sequencer *)

Section SequencerInvariants.
Import PrimFloat Schema Storage Routes SpecWording.

Lemma getScan_updateScan_ne (id id' : nat) (updates : ScanUpdates) (st : Storage) :
  id' <> id -> getScan id' (updateScan id updates st) = getScan id' st.
Proof.
  intros Hne. unfold getScan, updateScan. cbn [scans].
  induction (scans st) as [|x l IH]; [reflexivity|]. cbn [map find].
  destruct (Nat.eqb_spec (s_id x) id) as [E|E].
  - cbn [applyUpdates s_id]. 
    destruct (Nat.eqb_spec (s_id x) id') as [E'|E']; [congruence|exact IH].
  - destruct (Nat.eqb (s_id x) id'); [reflexivity|exact IH].
Qed.

Lemma getScan_storeSubdomain (id' id : nat) (l : list string) (st : Storage) :
  getScan id' (for_each (storeSubdomain id) l st) = getScan id' st.
Proof. apply getScan_scans, (storeSubdomain_effect id l st). Qed.

Lemma getScan_storeTechnology (id' id : nat) (l : list Recon.Technology) (st : Storage) :
  getScan id' (for_each (storeTechnology id) l st) = getScan id' st.
Proof. apply getScan_scans, (storeTechnology_effect id l st). Qed.

Lemma getScan_storeVulnerability (id' id : nat) (l : list OpenAI.Finding) (st : Storage) :
  getScan id' (for_each (storeVulnerability id) l st) = getScan id' st.
Proof. apply getScan_scans, (storeVulnerability_effect id l st). Qed.

Lemma getScan_mapVulnerability (id' : nat) (svc : Services) (l : list Vulnerability)
    (st : Storage) :
  getScan id' (for_each (mapVulnerability svc) l st) = getScan id' st.
Proof. apply getScan_scans, (mapVulnerability_effect svc l st). Qed.

Ltac split_run svc target :=
  unfold performScan, performScan_try;
  let rr := fresh "rr" in let an := fresh "an" in let vs := fresh "vs" in
  destruct (Recon.performReconnaissance target (probes svc target)) as [rr|?];
    [destruct (OpenAI.analyzeVulnerabilities (inference svc target rr)) as [an|?];
     [destruct (OpenAI.vulnerabilities an) as [vs|]|]|];
  cbn [hub storage clock with_storage broadcast_observe broadcast_clients fst snd].

Ltac read_scan :=
  rewrite ?getScan_updateScan, ?getScan_updateScan_ne,
    ?getScan_mapVulnerability, ?getScan_storeVulnerability,
    ?getScan_storeTechnology, ?getScan_storeSubdomain by assumption.

(** One run of [performScan] never touches the record of another scan,
    whatever the probes and the provider answer. *)
Theorem performScan_leaves_other_scans
    (svc : Services) (id id' : nat) (target scanType : string)
    (w : World (list Observation)) :
  id' <> id ->
  getScan id' (storage (performScan svc broadcast_observe id target scanType w)) =
  getScan id' (storage w).
Proof.
  intros Hne. split_run svc target; repeat read_scan; reflexivity.
Qed.

Lemma performScan_leaves_other_scans_witness :
  getScan 1 (storage (performScan Scenario.services broadcast_observe 2
                        "b.example.com" "comprehensive"
                        (Scenario.submitted "a.example.com"))) =
  getScan 1 (storage (Scenario.submitted "a.example.com")).
Proof.
  apply (performScan_leaves_other_scans Scenario.services 2 1). discriminate.
Defined.

(** Whatever happens during the run, a scan whose record exists ends with
    a stored status of completed or failed, never running, which is the
    status of the last event published; a completion time is stamped, and
    target, scan type and creation time of the record are unchanged. *)
Theorem performScan_ends_in_terminal_status
    (svc : Services) (id : nat) (target scanType : string)
    (w : World (list Observation)) (scan : Scan) :
  getScan id (storage w) = Some scan ->
  let w' := performScan svc broadcast_observe id target scanType w in
  exists scan',
    getScan id (storage w') = Some scan' /\
    (s_status scan' = "completed" \/ s_status scan' = "failed") /\
    (status <$> (obs_update <$> last (hub w'))) = Some (s_status scan') /\
    s_completedAt scan' = Some (clock w) /\
    s_id scan' = s_id scan /\ s_target scan' = s_target scan /\
    s_scanType scan' = s_scanType scan /\ s_createdAt scan' = s_createdAt scan.
Proof.
  intros Hs w'. subst w'. split_run svc target; repeat read_scan; rewrite Hs;
    cbn [fmap option_fmap option_map]; eexists; (split; [reflexivity|]);
    rewrite last_snoc; cbn; auto 10.
Qed.

Lemma performScan_ends_in_terminal_status_witness :
  exists scan',
    getScan 1 (storage (performScan Scenario.servicesInferenceDown broadcast_observe 1
                          "a.example.com" "comprehensive"
                          (Scenario.submitted "a.example.com"))) = Some scan' /\
    (s_status scan' = "completed" \/ s_status scan' = "failed").
Proof.
  destruct (performScan_ends_in_terminal_status Scenario.servicesInferenceDown 1
              "a.example.com" "comprehensive" (Scenario.submitted "a.example.com")
              (mkScan 1 "a.example.com" "comprehensive" "pending" (Some 0) None None
                 (Some 1000) None))
    as (scan' & E & Hst & _).
  - vm_compute. reflexivity.
  - exists scan'. split; assumption.
Defined.

Lemma dom_publish (events : list Observation) (clients : gmap string WebSocket) :
  dom (fold_left (fun clients o => broadcastUpdate (obs_scanId o) (obs_update o) clients)
         events clients) = dom clients.
Proof.
  revert clients. induction events as [|o l IH]; intros clients; cbn [fold_left];
    [reflexivity|].
  rewrite IH. unfold broadcastUpdate. apply dom_fmap_L.
Qed.

End SequencerInvariants.

(** ** What a run adds to the tables *)

Section Rows.
Import PrimFloat Schema Storage Routes SpecWording Api.

Lemma appended_refl {B} (P : B -> Prop) (l : list B) : appended P l l.
Proof. exists []. rewrite app_nil_r. split; [reflexivity|constructor]. Qed.

Lemma appended_trans {B} (P : B -> Prop) (l1 l2 l3 : list B) :
  appended P l1 l2 -> appended P l2 l3 -> appended P l1 l3.
Proof.
  intros (r1 & -> & H1) (r2 & -> & H2). exists (r1 ++ r2).
  rewrite app_assoc. split; [reflexivity|]. apply Forall_app. split; assumption.
Qed.

Lemma appended_one {B} (P : B -> Prop) (l : list B) (row : B) :
  P row -> appended P l (l ++ [row]).
Proof. intros Hp. exists [row]. split; [reflexivity|]. repeat constructor. exact Hp. Qed.

Lemma appended_eq {B} (P : B -> Prop) (l l' : list B) : l' = l -> appended P l l'.
Proof. intros ->. apply appended_refl. Qed.

Lemma grows_refl (id : nat) (st : Storage) : grows id st st.
Proof. unfold grows. repeat split; try apply appended_refl. Qed.

Lemma grows_trans (id : nat) (s1 s2 s3 : Storage) :
  grows id s1 s2 -> grows id s2 s3 -> grows id s1 s3.
Proof.
  intros (A1 & B1 & C1 & D1 & E1 & F1) (A2 & B2 & C2 & D2 & E2 & F2).
  unfold grows. repeat split; try (eapply appended_trans; eassumption); congruence.
Qed.

Lemma grows_for_each {A} (id : nat) (body : A -> Storage -> Storage)
    (xs : list A) (st : Storage) :
  (forall x s, grows id s (body x s)) -> grows id st (for_each body xs st).
Proof.
  intros Hb. unfold for_each. revert st.
  induction xs as [|x xs IH]; intros st; cbn [fold_left]; [apply grows_refl|].
  eapply grows_trans; [apply Hb|apply IH].
Qed.

Lemma grows_updateScan (id id' : nat) (updates : ScanUpdates) (st : Storage) :
  grows id st (updateScan id' updates st).
Proof.
  unfold grows, updateScan. cbn [subdomains technologies vulnerabilities mitreMappings
    scans currentScanId].
  repeat split; try apply appended_refl.
  rewrite map_map. apply map_ext. intros s. destruct (Nat.eqb (s_id s) id'); reflexivity.
Qed.

Lemma grows_storeSubdomain (id : nat) (x : string) (st : Storage) :
  grows id st (storeSubdomain id x st).
Proof.
  unfold grows, storeSubdomain, createSubdomain. cbn.
  repeat split; try apply appended_refl. apply appended_one. reflexivity.
Qed.

Lemma grows_storeTechnology (id : nat) (x : Recon.Technology) (st : Storage) :
  grows id st (storeTechnology id x st).
Proof.
  unfold grows, storeTechnology, createTechnology. cbn.
  repeat split; try apply appended_refl. apply appended_one. reflexivity.
Qed.

Lemma grows_storeVulnerability (id : nat) (x : OpenAI.Finding) (st : Storage) :
  grows id st (storeVulnerability id x st).
Proof.
  unfold grows, storeVulnerability, createVulnerability. cbn.
  repeat split; try apply appended_refl. apply appended_one. reflexivity.
Qed.

Lemma grows_storeMapping (id vid : nat) (x : Mitre.MitreAttackMapping) (st : Storage) :
  grows id st (storeMapping vid x st).
Proof.
  unfold grows, storeMapping, createVulnerabilityMitreMapping. cbn.
  repeat split; try apply appended_refl. apply appended_one. exact I.
Qed.

Lemma grows_mapVulnerability (id : nat) (svc : Services) (v : Vulnerability)
    (st : Storage) :
  grows id st (mapVulnerability svc v st).
Proof. unfold mapVulnerability. apply grows_for_each. intros; apply grows_storeMapping. Qed.

Ltac grow :=
  repeat first
    [ apply grows_refl
    | eapply grows_trans; [|apply grows_updateScan]
    | eapply grows_trans;
      [|apply grows_for_each; intros;
        first [ apply grows_storeSubdomain | apply grows_storeTechnology
              | apply grows_storeVulnerability | apply grows_mapVulnerability ]] ].

Lemma performScan_grows
    (svc : Services) (id : nat) (target scanType : string)
    (w : World (list Observation)) :
  grows id (storage w) (storage (performScan svc broadcast_observe id target scanType w)).
Proof.
  unfold performScan, performScan_try.
  destruct (Recon.performReconnaissance target (probes svc target)) as [rr|?];
    [destruct (OpenAI.analyzeVulnerabilities (inference svc target rr)) as [an|?];
     [destruct (OpenAI.vulnerabilities an) as [vs|]|]|];
    cbn [hub storage clock with_storage broadcast_observe fst snd]; grow.
Qed.

Lemma filter_appended {B} (P : B -> Prop) (p : B -> bool) (old new : list B) :
  appended P old new -> (forall r, P r -> p r = false) ->
  List.filter p new = List.filter p old.
Proof.
  intros (rows & -> & Hr) Hp. rewrite List.filter_app.
  assert (E : List.filter p rows = []).
  { induction Hr as [|r rows Hr _ IH]; cbn; [reflexivity|]. rewrite (Hp r Hr). exact IH. }
  rewrite E, app_nil_r. reflexivity.
Qed.

(** One run of [performScan] deletes and rewrites no row: each of
    the four row tables ends as it began followed by new rows, the new
    subdomain, technology and vulnerability rows all carry the identifier
    of the scan, and the set of scan records is the same. *)
Theorem performScan_only_appends_rows
    (svc : Services) (id : nat) (target scanType : string)
    (w : World (list Observation)) :
  let st := storage w in
  let st' := storage (performScan svc broadcast_observe id target scanType w) in
  (exists rows, subdomains st' = subdomains st ++ rows /\
                Forall (fun r => sd_scanId r = id) rows) /\
  (exists rows, technologies st' = technologies st ++ rows /\
                Forall (fun r => t_scanId r = id) rows) /\
  (exists rows, vulnerabilities st' = vulnerabilities st ++ rows /\
                Forall (fun r => v_scanId r = id) rows) /\
  (exists rows, mitreMappings st' = mitreMappings st ++ rows) /\
  map s_id (scans st') = map s_id (scans st).
Proof.
  intros st st'.
  destruct (performScan_grows svc id target scanType w) as (A & B & C & (m & D & _) & E & _).
  repeat split; try assumption. exists m. exact D.
Qed.

(** What [GET /api/scans/:id] answers for any other scan is the same
    after the run as before it. *)
Theorem performScan_leaves_other_details
    (svc : Services) (id id' : nat) (target scanType : string)
    (w : World (list Observation)) :
  id' <> id ->
  get_api_scan id' (storage (performScan svc broadcast_observe id target scanType w)) =
  get_api_scan id' (storage w).
Proof.
  intros Hne.
  destruct (performScan_grows svc id target scanType w) as (A & B & C & _).
  assert (Hs : getScan id'
                 (storage (performScan svc broadcast_observe id target scanType w)) =
               getScan id' (storage w)).
  { unfold performScan, performScan_try.
    destruct (Recon.performReconnaissance target (probes svc target)) as [rr|?];
      [destruct (OpenAI.analyzeVulnerabilities (inference svc target rr)) as [an|?];
       [destruct (OpenAI.vulnerabilities an) as [vs|]|]|];
      cbn [hub storage clock with_storage broadcast_observe fst snd];
      rewrite ?getScan_updateScan_ne, ?getScan_mapVulnerability,
        ?getScan_storeVulnerability, ?getScan_storeTechnology,
        ?getScan_storeSubdomain, ?getScan_updateScan_ne by assumption;
      reflexivity. }
  unfold get_api_scan. rewrite Hs.
  unfold getVulnerabilitiesByScan, getSubdomainsByScan, getTechnologiesByScan.
  rewrite (filter_appended _ _ _ _ A), (filter_appended _ _ _ _ B),
    (filter_appended _ _ _ _ C); [reflexivity|..];
    intros r ->; apply Nat.eqb_neq; congruence.
Qed.

Lemma performScan_leaves_other_details_witness :
  get_api_scan 1
    (storage (performScan Scenario.services broadcast_observe 2 "b.example.com"
                "comprehensive"
                (Scenario.scanned Scenario.services "a.example.com"))) =
  get_api_scan 1 (storage (Scenario.scanned Scenario.services "a.example.com")).
Proof.
  apply (performScan_leaves_other_details Scenario.services 2 1). discriminate.
Defined.

End Rows.

(** ** The registry parser, entry by entry *)

Section RegistryEntries.
Import Recon SpecWording Views WhoisViews.

Lemma js_set_lookup (k v key : string) (data : gmap string string) :
  js_set k v data !! key =
  if String.eqb k "__proto__" then data !! key
  else if String.eqb k key then Some v else data !! key.
Proof.
  unfold js_set. destruct (String.eqb k "__proto__"); [reflexivity|].
  destruct (String.eqb_spec k key) as [->|Hne].
  - apply lookup_insert_eq.
  - apply lookup_insert_ne. exact Hne.
Qed.

Lemma last_cons_some {A} (x : A) (l : list A) :
  last (x :: l) = match last l with Some y => Some y | None => Some x end.
Proof.
  revert x. induction l as [|y l IH]; intros x; [reflexivity|].
  change (last (x :: y :: l)) with (last (y :: l)). rewrite IH.
  destruct (last l); reflexivity.
Qed.

Lemma fold_addEntry_lookup (lines : list string) (data : gmap string string)
    (key : string) :
  fold_left addEntry lines data !! key =
  if String.eqb key "__proto__" then data !! key
  else match last (entriesFor key lines) with
       | Some v => Some v
       | None => data !! key
       end.
Proof.
  revert data. induction lines as [|line lines IH]; intros data.
  - cbn. destruct (String.eqb key "__proto__"); reflexivity.
  - cbn [fold_left]. rewrite IH. unfold entriesFor. cbn [omap list_omap].
    fold (entriesFor key lines). unfold addEntry.
    destruct (String.eqb_spec key "__proto__") as [Ep|Ep].
    + destruct (whoisEntry line) as [[k v]|]; [|reflexivity].
      rewrite js_set_lookup.
      destruct (String.eqb_spec k "__proto__") as [|Hk]; [reflexivity|].
      destruct (String.eqb_spec k key) as [->|]; [contradiction|reflexivity].
    + destruct (whoisEntry line) as [[k v]|]; [|reflexivity].
      rewrite js_set_lookup.
      destruct (String.eqb_spec k key) as [->|Hk].
      * destruct (String.eqb_spec key "__proto__") as [|_]; [contradiction|].
        rewrite last_cons_some. destruct (last (entriesFor key lines)); reflexivity.
      * destruct (String.eqb k "__proto__"); reflexivity.
Qed.

(** The parsed registry answer holds, under each key, the value of the
    last line that has this key (after trimming and lower-casing), and
    nothing under a key that no line has; the key [__proto__] is never
    bound. *)
Theorem parseWhoisData_last_line_wins (output key : string) :
  parseWhoisData output !! key =
  if String.eqb key "__proto__" then None
  else last (entriesFor key (split newline output)).
Proof.
  rewrite parseWhoisData_whoisMap. unfold whoisMap.
  rewrite fold_addEntry_lookup, lookup_empty.
  destruct (String.eqb key "__proto__"); [reflexivity|].
  destruct (last _); reflexivity.
Qed.

Lemma trimEnd_idem (s : string) : trimEnd (trimEnd s) = trimEnd s.
Proof.
  induction s as [|c r IH]; [reflexivity|]. cbn [trimEnd].
  destruct (is_space c && is_empty (trimEnd r)) eqn:E; [reflexivity|].
  cbn [trimEnd]. rewrite IH, E. reflexivity.
Qed.

Lemma trimStart_head (s : string) :
  match trimStart s with
  | EmptyString => True
  | String c _ => is_space c = false
  end.
Proof.
  induction s as [|c r IH]; [exact I|]. cbn [trimStart].
  destruct (is_space c) eqn:E; [exact IH|exact E].
Qed.

Lemma trim_idem (s : string) : trim (trim s) = trim s.
Proof.
  unfold trim. pose proof (trimStart_head s) as Hh.
  destruct (trimStart s) as [|c r]; [reflexivity|].
  cbn [trimEnd]. rewrite Hh. cbn [andb trimStart]. rewrite Hh.
  change (trimEnd (String c (trimEnd r))) with
    (if is_space c && is_empty (trimEnd (trimEnd r)) then EmptyString
     else String c (trimEnd (trimEnd r))).
  rewrite Hh, trimEnd_idem. reflexivity.
Qed.

Lemma all_chars_trimStart (p : ascii -> bool) (s : string) :
  all_chars p s = true -> all_chars p (trimStart s) = true.
Proof.
  induction s as [|c r IH]; [reflexivity|]. cbn [trimStart all_chars].
  intros H. apply andb_prop in H as [Hc Hr].
  destruct (is_space c); [apply IH, Hr|]. cbn [all_chars]. rewrite Hc, Hr. reflexivity.
Qed.

Lemma all_chars_trimEnd (p : ascii -> bool) (s : string) :
  all_chars p s = true -> all_chars p (trimEnd s) = true.
Proof.
  induction s as [|c r IH]; [reflexivity|]. cbn [trimEnd all_chars].
  intros H. apply andb_prop in H as [Hc Hr].
  destruct (is_space c && is_empty (trimEnd r)); [reflexivity|].
  cbn [all_chars]. rewrite Hc, (IH Hr). reflexivity.
Qed.

Lemma all_chars_trim (p : ascii -> bool) (s : string) :
  all_chars p s = true -> all_chars p (trim s) = true.
Proof. intros H. apply all_chars_trimEnd, all_chars_trimStart, H. Qed.

Lemma lower_ascii_differs (sep c : ascii) :
  is_upper sep = false -> (N_of_ascii sep <? 97)%N = true ->
  differs sep c = true -> differs sep (lower_ascii c) = true.
Proof.
  unfold differs, lower_ascii. intros Hu Hs Hd.
  destruct (is_upper c) eqn:Ec; [|exact Hd].
  apply negb_true_iff, Ascii.eqb_neq. intros E.
  apply (f_equal N_of_ascii) in E.
  unfold is_upper in Ec. apply andb_prop in Ec as [E1 E2].
  apply N.leb_le in E1, E2. apply N.ltb_lt in Hs.
  rewrite N_ascii_embedding in E by lia. lia.
Qed.

Lemma all_chars_toLowerCase (sep : ascii) (s : string) :
  is_upper sep = false -> (N_of_ascii sep <? 97)%N = true ->
  all_chars (differs sep) s = true ->
  all_chars (differs sep) (toLowerCase s) = true.
Proof.
  intros Hu Hs. induction s as [|c r IH]; [reflexivity|]. cbn [toLowerCase all_chars].
  intros H. apply andb_prop in H as [Hc Hr].
  rewrite (lower_ascii_differs sep c Hu Hs Hc), (IH Hr). reflexivity.
Qed.

Lemma split_pieces (sep : ascii) (s : string) :
  Forall (fun piece => all_chars (differs sep) piece = true) (split sep s).
Proof.
  induction s as [|c r IH]; [repeat constructor|]. cbn [split].
  destruct (Ascii.eqb c sep) eqn:E.
  - constructor; [reflexivity|exact IH].
  - destruct (split sep r) as [|h t]; [repeat constructor; cbn; unfold differs; rewrite E; reflexivity|].
    inversion IH as [|? ? Hh Ht]; subst. constructor; [|exact Ht].
    cbn [all_chars]. unfold differs at 1. rewrite E, Hh. reflexivity.
Qed.

Lemma cutAtFirst_parts (sep : ascii) (p : ascii -> bool) (s k rest : string) :
  cutAtFirst sep s = Some (k, rest) ->
  all_chars (differs sep) k = true /\
  (all_chars p s = true -> all_chars p k = true /\ all_chars p rest = true).
Proof.
  revert k. induction s as [|c r IH]; intros k; [discriminate|]. cbn [cutAtFirst].
  destruct (Ascii.eqb c sep) eqn:E.
  - intros [= <- <-]. split; [reflexivity|].
    cbn [all_chars]. intros H. apply andb_prop in H as [_ Hr]. split; [reflexivity|exact Hr].
  - destruct (cutAtFirst sep r) as [[k' v']|]; [|discriminate].
    intros [= <- <-]. destruct (IH k' eq_refl) as [Hk Hp]. split.
    + cbn [all_chars]. unfold differs at 1. rewrite E, Hk. reflexivity.
    + cbn [all_chars]. intros H. apply andb_prop in H as [Hc Hr].
      destruct (Hp Hr) as [Hk' Hv']. rewrite Hc, Hk'. split; [reflexivity|exact Hv'].
Qed.

Lemma last_In {A} (l : list A) (x : A) : last l = Some x -> In x l.
Proof.
  induction l as [|y l IH]; [discriminate|]. rewrite last_cons_some.
  destruct (last l) as [z|].
  - intros [= ->]. right. apply IH. reflexivity.
  - intros [= ->]. left. reflexivity.
Qed.

Lemma entriesFor_In (key value : string) (lines : list string) :
  In value (entriesFor key lines) ->
  exists line, In line lines /\ whoisEntry line = Some (key, value).
Proof.
  induction lines as [|line lines IH]; [intros []|].
  unfold entriesFor. cbn [omap list_omap]. fold (entriesFor key lines).
  destruct (whoisEntry line) as [[k v]|] eqn:E.
  - destruct (String.eqb_spec k key) as [->|_].
    + intros [<-|H]; [exists line; split; [left; reflexivity|exact E]|].
      destruct (IH H) as (l & Hl & El). exists l. split; [right; exact Hl|exact El].
    + intros H. destruct (IH H) as (l & Hl & El). exists l. split; [right; exact Hl|exact El].
  - intros H. destruct (IH H) as (l & Hl & El). exists l. split; [right; exact Hl|exact El].
Qed.

(** Every binding of the parsed registry answer comes from a line of the
    output.  Its key is lower-case, is not [__proto__], and holds neither
    a colon nor a line break; its value is not empty, has no white space
    at either end and holds no line break. *)
Theorem parseWhoisData_bindings (output key value : string) :
  parseWhoisData output !! key = Some value ->
  (exists line, In line (split newline output) /\ whoisEntry line = Some (key, value)) /\
  toLowerCase key = key /\ key <> "__proto__" /\
  all_chars (differs colon) key = true /\ all_chars (differs newline) key = true /\
  value <> EmptyString /\ trim value = value /\
  all_chars (differs newline) value = true.
Proof.
  rewrite parseWhoisData_last_line_wins.
  destruct (String.eqb_spec key "__proto__") as [|Hp]; [discriminate|].
  intros Hl. apply last_In, entriesFor_In in Hl as (line & Hin & He).
  split; [exists line; split; assumption|].
  pose proof (split_pieces newline output) as Hs.
  rewrite List.Forall_forall in Hs. specialize (Hs line Hin).
  unfold whoisEntry in He.
  destruct (cutAtFirst colon line) as [[k rest]|] eqn:Ec; [|discriminate].
  destruct (is_empty k || is_empty (trim rest)) eqn:Ee; [discriminate|].
  injection He as <- <-. apply orb_false_elim in Ee as [_ Ev].
  destruct (cutAtFirst_parts colon (differs newline) line k rest Ec) as [Hk Hn].
  destruct (Hn Hs) as [Hkn Hrn].
  repeat split.
  - apply toLowerCase_idem.
  - exact Hp.
  - apply all_chars_toLowerCase; [reflexivity..|]. apply all_chars_trim, Hk.
  - apply all_chars_toLowerCase; [reflexivity..|]. apply all_chars_trim, Hkn.
  - intros E. rewrite E in Ev. discriminate.
  - apply trim_idem.
  - apply all_chars_trim, Hrn.
Qed.

Lemma parseWhoisData_bindings_witness :
  toLowerCase "registrar" = "registrar" /\ trim "Example Registrar, Inc." = "Example Registrar, Inc.".
Proof.
  destruct (parseWhoisData_bindings
              (String.append "Domain Name: EXAMPLE.COM"
                 (String newline " Registrar:  Example Registrar, Inc. "))
              "registrar" "Example Registrar, Inc.") as (_ & Hk & _ & _ & _ & _ & Ht & _).
  - vm_compute. reflexivity.
  - split; assumption.
Defined.

End RegistryEntries.

(** ** The checkpoints of a run, with the stored record at each event *)

Section Checkpoints.
Import PrimFloat Schema Storage Routes SpecWording Inspect.

Ltac stored_record Hs :=
  rewrite ?getScan_updateScan, ?getScan_mapVulnerability, ?getScan_storeVulnerability,
    ?getScan_storeTechnology, ?getScan_storeSubdomain, ?getScan_updateScan, ?Hs.

(** C3, as the code has it. For every scan whose record exists, whatever
    the outside world answers: (a) each stage that completes stores the
    rows it derives, and a stage that is not reached stores none: after
    the reconnaissance one subdomain row per subdomain of the aggregate
    and one technology row per detected technology, also when the
    inference fails afterwards; after the inference one vulnerability row
    per finding and one mapping row per mapping of each stored
    vulnerability of the scan; (b) status and progress of the stored
    record are written on entry, to (running, 0), and at the end, to
    (completed, 100) or to failed with the progress left as it is, and
    nowhere else, so that the stored progress is still 0 at every
    checkpoint in between; (c) exactly one event is published per
    checkpoint reached, 0 and 25, then 50, 65 and 80 after the
    reconnaissance, then 90 and 100 after the inference, of which only
    the first and the completed one carry the progress of the stored
    record, and one failed event closes a run that fails. *)
Theorem performScan_checkpoints
    (svc : Services) (id : nat) (target scanType : string)
    (w : World (list Snapshot)) (scan : Scan) :
  getScan id (storage w) = Some scan ->
  let w' := performScan svc broadcast_inspect id target scanType w in
  let st := storage w in
  let st' := storage w' in
  let entry :=
    [ ("running", Some 0, Some "running", Some 0);
      ("running", Some 25, Some "running", Some 0) ] in
  let afterRecon :=
    [ ("running", Some 50, Some "running", Some 0);
      ("running", Some 65, Some "running", Some 0);
      ("running", Some 80, Some "running", Some 0) ] in
  let afterInference :=
    [ ("running", Some 90, Some "running", Some 0);
      ("completed", Some 100, Some "completed", Some 100) ] in
  let failed := [ ("failed", None, Some "failed", Some 0) ] in
  match Recon.performReconnaissance target (probes svc target) with
  | Throw _ =>
      map sight (hub w') = map sight (hub w) ++ entry ++ failed /\
      subdomains st' = subdomains st /\ technologies st' = technologies st /\
      vulnerabilities st' = vulnerabilities st /\ mitreMappings st' = mitreMappings st
  | Ok rr =>
      map subdomainView (subdomains st') =
        map subdomainView (subdomains st) ++ map (subdomainOf id) (Recon.subdomains rr) /\
      map technologyView (technologies st') =
        map technologyView (technologies st) ++
        map (technologyOf id) (Recon.technologies rr) /\
      let inferenceFailed :=
        map sight (hub w') = map sight (hub w) ++ entry ++ afterRecon ++ failed /\
        vulnerabilities st' = vulnerabilities st /\
        mitreMappings st' = mitreMappings st in
      match OpenAI.analyzeVulnerabilities (inference svc target rr) with
      | Throw _ => inferenceFailed
      | Ok analysis =>
          match OpenAI.vulnerabilities analysis with
          | None => inferenceFailed
          | Some vulns =>
              map sight (hub w') =
                map sight (hub w) ++ entry ++ afterRecon ++ afterInference /\
              (exists scan',
                 getScan id st' = Some scan' /\
                 s_status scan' = "completed" /\ s_progress scan' = Some 100 /\
                 s_riskScore scan' =
                   Some (JsNumber.Math_round (OpenAI.riskScore analysis)) /\
                 s_results scan' = Some rr /\ s_completedAt scan' = Some (clock w)) /\
              map vulnerabilityView (vulnerabilities st') =
                map vulnerabilityView (vulnerabilities st) ++
                map (vulnerabilityOf id) vulns /\
              map mappingView (mitreMappings st') =
                map mappingView (mitreMappings st) ++
                concat (map (mappingsOf svc) (getVulnerabilitiesByScan id st'))
          end
      end
  end.
Proof.
  intros Hs w' st st' entry afterRecon afterInference failed.
  subst w' st st' entry afterRecon afterInference failed.
  unfold performScan, performScan_try.
  set (up0 := mkScanUpdates (Some "running") _ _ _ _).
  set (st1 := updateScan id up0 (storage w)).
  destruct (updateScan_tables id up0 (storage w)) as (T1a & T1b & T1c & T1d).
  fold st1 in T1a, T1b, T1c, T1d.
  assert (G1 : getScan id st1 = Some (applyUpdates up0 scan)).
  { unfold st1. rewrite getScan_updateScan, Hs. reflexivity. }
  destruct (Recon.performReconnaissance target (probes svc target)) as [rr|e].
  2: { cbn [hub storage clock with_storage broadcast_inspect fst snd]. fold st1.
       split; [|repeat split; assumption].
       rewrite !map_app. cbn [map sight snap_update snap_record running status progress].
       rewrite getScan_updateScan, G1. rewrite <- !app_assoc. reflexivity. }
  set (st2 := for_each (storeSubdomain id) (Recon.subdomains rr) st1).
  set (st3 := for_each (storeTechnology id) (Recon.technologies rr) st2).
  destruct (storeSubdomain_effect id (Recon.subdomains rr) st1)
    as (S2 & _ & V2 & T2 & M2 & D2).
  destruct (storeTechnology_effect id (Recon.technologies rr) st2)
    as (S3 & _ & V3 & D3 & M3 & T3).
  fold st2 in S2, V2, T2, M2, D2. fold st3 in S3, V3, D3, M3, T3.
  assert (G2 : getScan id st2 = Some (applyUpdates up0 scan))
    by (rewrite (getScan_scans id st1 st2) by congruence; exact G1).
  assert (G3 : getScan id st3 = Some (applyUpdates up0 scan))
    by (rewrite (getScan_scans id st1 st3) by congruence; exact G1).
  assert (Fail3 : forall e : string,
    let wF := broadcast_inspect id
                (mkUpdate "failed" None None (Some (String.append "Scan failed: " e)))
                (with_storage
                   (updateScan id
                      (mkScanUpdates (Some "failed") None None None
                         (Some (Some (clock w)))))
                   (broadcast_inspect id
                      (running 80 (Some "Analyzing vulnerabilities with AI..."))
                      (with_storage (fun _ => st3)
                         (broadcast_inspect id
                            (running 65 (Some "Identifying technologies..."))
                            (with_storage (fun _ => st2)
                               (broadcast_inspect id
                                  (running 50 (Some "Analyzing subdomains..."))
                                  (broadcast_inspect id
                                     (running 25 (Some "Starting reconnaissance..."))
                                     (broadcast_inspect id (running 0 None)
                                        (mkWorld st1 (hub w) (clock w)))))))))) in
    map subdomainView (subdomains (storage wF)) =
      map subdomainView (subdomains (storage w)) ++
      map (subdomainOf id) (Recon.subdomains rr) /\
    map technologyView (technologies (storage wF)) =
      map technologyView (technologies (storage w)) ++
      map (technologyOf id) (Recon.technologies rr) /\
    map sight (hub wF) =
      map sight (hub w) ++
      [ ("running", Some 0, Some "running", Some 0);
        ("running", Some 25, Some "running", Some 0) ] ++
      [ ("running", Some 50, Some "running", Some 0);
        ("running", Some 65, Some "running", Some 0);
        ("running", Some 80, Some "running", Some 0) ] ++
      [ ("failed", None, Some "failed", Some 0) ] /\
    vulnerabilities (storage wF) = vulnerabilities (storage w) /\
    mitreMappings (storage wF) = mitreMappings (storage w)).
  { intros e. cbn [hub storage clock with_storage broadcast_inspect fst snd].
    split; [|split; [|split; [|split]]].
    - cbn [updateScan subdomains]. rewrite D3, D2, T1a. reflexivity.
    - cbn [updateScan technologies]. rewrite T3, T2, T1b. reflexivity.
    - rewrite !map_app. cbn [map sight snap_update snap_record running status progress].
      rewrite getScan_updateScan, G1, G2, G3. rewrite <- !app_assoc. reflexivity.
    - cbn [updateScan vulnerabilities]. rewrite V3, V2, T1c. reflexivity.
    - cbn [updateScan mitreMappings]. rewrite M3, M2, T1d. reflexivity. }
  destruct (OpenAI.analyzeVulnerabilities (inference svc target rr)) as [analysis|e].
  2: { destruct (Fail3 e) as (A & B & C). split; [exact A|]. split; [exact B|exact C]. }
  destruct (OpenAI.vulnerabilities analysis) as [vulns|].
  2: { destruct (Fail3 "vulnerabilityAnalysis.vulnerabilities is not iterable")
         as (A & B & C).
       split; [exact A|]. split; [exact B|exact C]. }
  cbn [hub storage clock with_storage broadcast_inspect fst snd].
  fold st1. fold st2. fold st3.
  set (st4 := for_each (storeVulnerability id) vulns st3).
  set (st5 := for_each (mapVulnerability svc) _ st4).
  set (up1 := mkScanUpdates (Some "completed") _ _ _ _).
  destruct (storeVulnerability_effect id vulns st3) as (S4 & _ & D4 & T4 & M4 & V4).
  destruct (mapVulnerability_effect svc (getVulnerabilitiesByScan id st4) st4)
    as (S5 & _ & D5 & T5 & V5 & M5).
  fold st4 in S4, D4, T4, M4, V4. fold st5 in S5, D5, T5, V5, M5.
  assert (G4 : getScan id st4 = Some (applyUpdates up0 scan))
    by (rewrite (getScan_scans id st1 st4) by congruence; exact G1).
  assert (G5 : getScan id st5 = Some (applyUpdates up0 scan))
    by (rewrite (getScan_scans id st1 st5) by congruence; exact G1).
  split; [|split; [|split; [|split; [|split]]]].
  - cbn [updateScan subdomains]. rewrite D5, D4, D3, D2, T1a. reflexivity.
  - cbn [updateScan technologies]. rewrite T5, T4, T3, T2, T1b. reflexivity.
  - rewrite !map_app. cbn [map sight snap_update snap_record running status progress].
    rewrite getScan_updateScan, G1, G2, G3, G4, G5. rewrite <- !app_assoc. reflexivity.
  - exists (applyUpdates up1 (applyUpdates up0 scan)).
    rewrite getScan_updateScan, G5. repeat split; reflexivity.
  - cbn [updateScan vulnerabilities]. rewrite V5, V4, V3, V2, T1c. reflexivity.
  - unfold getVulnerabilitiesByScan at 1.
    cbn [updateScan mitreMappings vulnerabilities].
    rewrite V5. fold (getVulnerabilitiesByScan id st4).
    rewrite M5, M4, M3, M2, T1d. reflexivity.
Qed.

Lemma performScan_checkpoints_witness :
  map sight
    (hub (performScan Scenario.servicesInferenceDown broadcast_inspect 1 "a.example.com"
            "comprehensive"
            (mkWorld (storage (Scenario.submitted "a.example.com")) [] 1000))) =
  [ ("running", Some 0, Some "running", Some 0);
    ("running", Some 25, Some "running", Some 0);
    ("running", Some 50, Some "running", Some 0);
    ("running", Some 65, Some "running", Some 0);
    ("running", Some 80, Some "running", Some 0);
    ("failed", None, Some "failed", Some 0) ] /\
  map sd_subdomain
    (subdomains
       (storage (performScan Scenario.servicesInferenceDown broadcast_inspect 1
                   "a.example.com" "comprehensive"
                   (mkWorld (storage (Scenario.submitted "a.example.com")) [] 1000)))) =
  [ "www.a.example.com"; "api.a.example.com" ].
Proof.
  assert (Hs : getScan 1 (storage (Scenario.submitted "a.example.com")) =
               Some (mkScan 1 "a.example.com" "comprehensive" "pending" (Some 0) None None
                       (Some 1000) None))
    by (vm_compute; reflexivity).
  pose proof (performScan_checkpoints Scenario.servicesInferenceDown 1 "a.example.com"
                "comprehensive"
                (mkWorld (storage (Scenario.submitted "a.example.com")) [] 1000) _ Hs) as H.
  vm_compute in H. destruct H as (_ & _ & H & _).
  split; [vm_compute; exact H|vm_compute; reflexivity].
Defined.

End Checkpoints.

(** ** The progress field over the events of a run *)

Section EventSequence.
Import PrimFloat Schema Storage Routes SpecWording Client.

(** C5, as the code has it. The events one run of [performScan] publishes
    for its scan: every event carries a progress value except a closing
    failed event, which has no progress field; the values carried
    increase from each event to the next; the last event has status
    completed or failed, every event before it has status running, and
    the run publishes nothing after it. *)
Theorem performScan_event_sequence
    (svc : Services) (id : nat) (target scanType : string)
    (w : World (list Observation)) :
  let events :=
    drop (length (hub w))
      (hub (performScan svc broadcast_observe id target scanType w)) in
  let fields := map (fun o => progress (obs_update o)) events in
  hub (performScan svc broadcast_observe id target scanType w) = hub w ++ events /\
  Forall (fun o => obs_scanId o = id) events /\
  (exists values,
     StronglySorted lt values /\ progressValues events = values /\
     ((last (statuses events) = Some "completed" /\ fields = map Some values) \/
      (last (statuses events) = Some "failed" /\ fields = map Some values ++ [None]))) /\
  StronglySorted le (progressValues events) /\
  Forall (fun s => s = "running") (removelast (statuses events)) /\
  (last (statuses events) = Some "completed" \/
   last (statuses events) = Some "failed").
Proof.
  intros events fields. subst events fields.
  destruct (performScan_log_cases svc id target scanType w)
    as (events & -> & Hid & Hcases).
  rewrite drop_app_length.
  split; [reflexivity|]. split; [exact Hid|].
  assert (Hp : progressValues events =
               omap snd (map (fun o => (status (obs_update o), progress (obs_update o)))
                           events)).
  { unfold progressValues. clear. induction events as [|o l IH]; cbn; [reflexivity|].
    rewrite IH. reflexivity. }
  assert (Hs : statuses events =
               map fst (map (fun o => (status (obs_update o), progress (obs_update o)))
                          events)).
  { unfold statuses. rewrite map_map. reflexivity. }
  assert (Hf : map (fun o => progress (obs_update o)) events =
               map snd (map (fun o => (status (obs_update o), progress (obs_update o)))
                          events)).
  { rewrite map_map. reflexivity. }
  rewrite Hp, Hs, Hf.
  destruct Hcases as [-> | [-> | ->]]; cbn;
    (split; [eexists; split; [|split; [reflexivity|]];
             [repeat constructor; lia| first [left; split; reflexivity
                                             |right; split; reflexivity]]|]);
    (split; [repeat constructor; lia|]);
    (split; [repeat constructor|]); auto.
Qed.

(** C5 as stated fails in one part: the failed event that closes a run
    carries no progress value, and the client, which reads a missing
    value as the stored progress or 0, shows 0 after 80. *)
Lemma failed_event_carries_no_progress :
  let events := hub (Scenario.scanned Scenario.servicesInferenceDown "a.example.com") in
  map (fun o => progress (obs_update o)) events =
    [Some 0; Some 25; Some 50; Some 65; Some 80; None] /\
  map (fun o => currentProgress (Some (obs_update o)) (obs_stored o)) events =
    [0; 25; 50; 65; 80; 0] /\
  ~ StronglySorted le
      (map (fun o => currentProgress (Some (obs_update o)) (obs_stored o)) events).
Proof.
  cbv zeta. split; [vm_compute; reflexivity|]. split; [vm_compute; reflexivity|].
  intros H. vm_compute in H.
  repeat match goal with
         | H : StronglySorted _ (_ :: _) |- _ => inversion H; clear H; subst
         | H : Forall _ (_ :: _) |- _ => inversion H; clear H; subst
         end.
  lia.
Qed.

End EventSequence.

(** ** Delivery while the registry changes *)

Section LiveDelivery.
Import Schema Storage Routes SpecWording Live.







(** A socket whose close handler runs during the run is sent the events
    published before that moment only. *)
Example socket_closed_mid_scan_misses_events :
  let w' :=
    performScan Scenario.services broadcast_live 1 "a.example.com" "comprehensive"
      (mkWorld (storage (Scenario.submitted "a.example.com"))
         (mkHub (<["k3j9x0q1z" := mkWebSocket OPEN []]> ∅)
            [ []; []; []; [StateChange "k3j9x0q1z" CLOSING] ])
         1000) in
  (map (fun m => progress (msg_data m)) <$>
     (sent <$> registry (hub w') !! "k3j9x0q1z")) =
  Some [Some 0; Some 25; Some 50].
Proof. vm_compute. reflexivity. Qed.

End LiveDelivery.
